(** * TicTacToeGame and TicTacToeGameArea

    A shallow embedding of [TicTacToeGame] (the rules engine) and
    [TicTacToeGameArea.handleCommand] (the command dispatcher) of
    [ip1-handout/src/town/games], with the properties of the engine's
    move log, win and tie detection, join and leave transitions, the
    dispatcher's history log, its change notifications and its error
    messages.

    Objects that the TypeScript code mutates in place are threaded as
    values: a method of the engine maps the object before the call to
    its completion, and [handleCommand] maps the area before the call
    to the area after it together with the completion of the call. *)

From Stdlib Require Import String List ZArith Bool Arith Lia.
Import ListNotations.
Open Scope string_scope.
Open Scope nat_scope.
Open Scope list_scope.

(** ** Data model (types/CoveyTownSocket) *)

Definition PlayerID := string.
Definition GameInstanceID := string.

Inductive GameStatus := IN_PROGRESS | WAITING_TO_START | OVER.

(** The game piece of a move: the string literals ['X'] and ['O']. *)
Inductive Piece := X | O.

Definition Piece_eqb (a b : Piece) : bool :=
  match a, b with
  | X, X | O, O => true
  | _, _ => false
  end.

Definition GameStatus_eqb (a b : GameStatus) : bool :=
  match a, b with
  | IN_PROGRESS, IN_PROGRESS
  | WAITING_TO_START, WAITING_TO_START
  | OVER, OVER => true
  | _, _ => false
  end.

(** [lib/Player]: only the identity and the display name are used. *)
Module Player.
Record t := mk { id : PlayerID; userName : string }.
End Player.

(** [TicTacToeMove]: rows and columns are JavaScript numbers, which the
    declared type restricts to 0, 1 and 2. *)
Module TicTacToeMove.
Record t := mk { gamePiece : Piece; row : Z; col : Z }.
End TicTacToeMove.

(** [GameMove<TicTacToeMove>] *)
Module GameMove.
Record t := mk { playerID : PlayerID;
                 gameID : GameInstanceID;
                 move : TicTacToeMove.t }.
End GameMove.

(** [TicTacToeGameState]: the optional fields [x], [o] and [winner] are
    [None] when undefined. *)
Module TicTacToeGameState.
Record t := mk { moves : list TicTacToeMove.t;
                 x : option PlayerID;
                 o : option PlayerID;
                 winner : option PlayerID;
                 status : GameStatus }.
End TicTacToeGameState.

(** A [TicTacToeGame] object: the fields of its base class [Game] that
    the methods read and write. *)
Module Game.
Record t := mk { id : GameInstanceID;
                 state : TicTacToeGameState.t;
                 _players : list Player.t }.
End Game.

(** [GameResult]: an entry of the area's history; [scores] is an object
    keyed by display name, kept as the list of its entries. *)
Module GameResult.
Record t := mk { gameID : GameInstanceID; scores : list (string * Z) }.
End GameResult.

(** [InteractableCommand]: the three commands the area handles, and
    every other command type under its [type] tag. *)
Inductive InteractableCommand :=
| JoinGameCommand
| GameMoveCommand (gameID : GameInstanceID) (move : TicTacToeMove.t)
| LeaveGameCommand (gameID : GameInstanceID)
| OtherCommand (type : string).

(** [InteractableCommandReturnType]: [{ gameID }] for a join, the empty
    object otherwise. *)
Inductive CommandReturn :=
| ReturnGameID (gameID : GameInstanceID)
| ReturnEmpty.

(** A [TicTacToeGameArea]: the active game, the history, and the number
    of calls of [_emitAreaChanged] made so far. *)
Module Area.
Record t := mk { _game : option Game.t;
                 _history : list GameResult.t;
                 emitted : nat }.
End Area.

(** ** Exceptions *)

(** [InvalidParametersError] carries a message. *)
Record Error := InvalidParametersError { message : string }.

(** A call either completes normally with a value or throws. *)
Inductive Completion (A : Type) :=
| Normal (a : A)
| Throw (e : Error).
Arguments Normal {A} a.
Arguments Throw {A} e.

Definition is_normal {A} (c : Completion A) : bool :=
  match c with Normal _ => true | Throw _ => false end.

(** ** State updates *)

Definition set_status (s : TicTacToeGameState.t) (v : GameStatus) :=
  TicTacToeGameState.mk (TicTacToeGameState.moves s) (TicTacToeGameState.x s)
    (TicTacToeGameState.o s) (TicTacToeGameState.winner s) v.

Definition set_winner (s : TicTacToeGameState.t) (v : option PlayerID) :=
  TicTacToeGameState.mk (TicTacToeGameState.moves s) (TicTacToeGameState.x s)
    (TicTacToeGameState.o s) v (TicTacToeGameState.status s).

Definition set_x (s : TicTacToeGameState.t) (v : option PlayerID) :=
  TicTacToeGameState.mk (TicTacToeGameState.moves s) v
    (TicTacToeGameState.o s) (TicTacToeGameState.winner s)
    (TicTacToeGameState.status s).

Definition set_o (s : TicTacToeGameState.t) (v : option PlayerID) :=
  TicTacToeGameState.mk (TicTacToeGameState.moves s) (TicTacToeGameState.x s)
    v (TicTacToeGameState.winner s) (TicTacToeGameState.status s).

Definition with_state (g : Game.t) (s : TicTacToeGameState.t) : Game.t :=
  Game.mk (Game.id g) s (Game._players g).

Definition with_players (g : Game.t) (ps : list Player.t) : Game.t :=
  Game.mk (Game.id g) (Game.state g) ps.

(** [a === b] for a player id against an optional player id. *)
Definition id_is (a : PlayerID) (b : option PlayerID) : bool :=
  match b with
  | Some b' => String.eqb a b'
  | None => false
  end.

(** ** TicTacToeGame *)

(** [new TicTacToeGame()]: the base constructor draws the identifier
    from [nanoid()]; the drawn value is the argument [nid]. *)
Definition new_TicTacToeGame (nid : GameInstanceID) : Game.t :=
  Game.mk nid
    (TicTacToeGameState.mk [] None None None WAITING_TO_START)
    [].

(** [moves.some(move => move.row === row && move.col === col)] *)
Definition _isPositionOccupied (g : Game.t) (row col : Z) : bool :=
  let moves := TicTacToeGameState.moves (Game.state g) in
  existsb (fun move =>
             (TicTacToeMove.row move =? row)%Z
             && (TicTacToeMove.col move =? col)%Z) moves.

(** One [for (let i = 0; i < 3; i++)] loop of [_checkForWin]: the number
    of [i] for which some move is at [cell i] with the given piece. *)
Definition lineCount (moves : list TicTacToeMove.t)
    (cell : Z -> Z * Z) (currentPlayerPiece : Piece) : nat :=
  length
    (filter
       (fun i =>
          existsb (fun move =>
                     (TicTacToeMove.row move =? fst (cell i))%Z
                     && (TicTacToeMove.col move =? snd (cell i))%Z
                     && Piece_eqb (TicTacToeMove.gamePiece move)
                          currentPlayerPiece) moves)
       [0; 1; 2]%Z).

Definition _checkForWin (g : Game.t) (row col : Z)
    (currentPlayerPiece : Piece) : bool :=
  let moves := TicTacToeGameState.moves (Game.state g) in
  let rowCount := lineCount moves (fun i => (row, i)) currentPlayerPiece in
  if rowCount =? 3 then true else
  let colCount := lineCount moves (fun i => (i, col)) currentPlayerPiece in
  if colCount =? 3 then true else
  if (row =? col)%Z
     && (lineCount moves (fun i => (i, i)) currentPlayerPiece =? 3)
  then true else
  if (row + col =? 2)%Z
     && (lineCount moves (fun i => (i, 2 - i)%Z) currentPlayerPiece =? 3)
  then true else
  false.

(** [currentPlayerID === x ? 'X' : 'O'] *)
Definition currentPlayerPiece (x : option PlayerID)
    (currentPlayerID : PlayerID) : Piece :=
  if id_is currentPlayerID x then X else O.

(** [applyMove]: every [throw] precedes the first assignment, so the
    object is unchanged when the call throws.  [newMovesArray] is built
    and never stored. *)
Definition applyMove (g : Game.t) (move : GameMove.t) : Completion Game.t :=
  let moves := TicTacToeGameState.moves (Game.state g) in
  let status := TicTacToeGameState.status (Game.state g) in
  let x := TicTacToeGameState.x (Game.state g) in
  let currentPlayerID := GameMove.playerID move in
  let piece := currentPlayerPiece x currentPlayerID in
  if negb (GameStatus_eqb status IN_PROGRESS) then
    Throw (InvalidParametersError "GAME_NOT_IN_PROGRESS_MESSAGE")
  else if (Piece_eqb piece X && negb (length moves mod 2 =? 0))
          || (Piece_eqb piece O && (length moves mod 2 =? 0)) then
    Throw (InvalidParametersError "MOVE_NOT_YOUR_TURN_MESSAGE")
  else
    let row := TicTacToeMove.row (GameMove.move move) in
    let col := TicTacToeMove.col (GameMove.move move) in
    if _isPositionOccupied g row col then
      Throw (InvalidParametersError "BOARD_POSITION_NOT_EMPTY_MESSAGE")
    else
      let newMovesArray := moves ++ [GameMove.move move] in
      if _checkForWin g row col piece then
        Normal (with_state g
                  (set_winner (set_status (Game.state g) OVER)
                     (Some currentPlayerID)))
      else if length moves =? 9 then
        Normal (with_state g
                  (set_winner (set_status (Game.state g) OVER) None))
      else
        Normal g.

(** A sequence of [applyMove] calls, each wrapped as the test file
    wraps them ([expect(() => game.applyMove(...))]): a call that throws
    leaves the object as it was and the next call follows. *)
Definition applyMoves (g : Game.t) (ms : list GameMove.t) : Game.t :=
  fold_left
    (fun g m => match applyMove g m with Normal g' => g' | Throw _ => g end)
    ms g.

(** ** Concrete players, games and areas *)

Definition player1 : Player.t := Player.mk "player1" "Player One".
Definition player2 : Player.t := Player.mk "player2" "Player Two".
Definition player3 : Player.t := Player.mk "player3" "Player Three".

(** The game after [player1] and then [player2] joined. *)
Definition two_player_game : Game.t :=
  Game.mk "game1"
    (TicTacToeGameState.mk [] (Some "player1") (Some "player2") None
       IN_PROGRESS)
    [player1; player2].

(** The game after [player1] joined. *)
Definition one_player_game : Game.t :=
  Game.mk "game1"
    (TicTacToeGameState.mk [] (Some "player1") None None WAITING_TO_START)
    [player1].

(** The game after [player1] left [two_player_game]. *)
Definition forfeited_game : Game.t :=
  Game.mk "game1"
    (TicTacToeGameState.mk [] (Some "player1") (Some "player2")
       (Some "player2") OVER)
    [player2].

(** The game after [player2] then left [forfeited_game]. *)
Definition abandoned_game : Game.t :=
  Game.mk "game1"
    (TicTacToeGameState.mk [] (Some "player1") (Some "player2")
       (Some "player2") WAITING_TO_START)
    [].

(** The game after [player1] left [one_player_game]. *)
Definition vacated_game : Game.t :=
  Game.mk "game1"
    (TicTacToeGameState.mk [] (Some "player1") None None WAITING_TO_START)
    [].

(** A game in progress whose log holds the first move of X. *)
Definition one_move_game : Game.t :=
  Game.mk "game1"
    (TicTacToeGameState.mk [TicTacToeMove.mk X 0 0] (Some "player1")
       (Some "player2") None IN_PROGRESS)
    [player1; player2].

(** A move of [player] on [two_player_game]. *)
Definition moveOf (player : Player.t) (piece : Piece) (row col : Z)
  : GameMove.t :=
  GameMove.mk (Player.id player) "game1" (TicTacToeMove.mk piece row col).

(** The five moves of the test
    'should add the move to the game state and check for win condition'. *)
Definition column_win_moves : list GameMove.t :=
  [ moveOf player1 X 0 0; moveOf player2 O 0 1; moveOf player1 X 1 0;
    moveOf player2 O 1 1; moveOf player1 X 2 0 ]%Z.

(** Nine alternating moves that fill the board
    [X O X / X O O / O X X] with no three in a row. *)
Definition tie_moves : list GameMove.t :=
  [ moveOf player1 X 0 0; moveOf player2 O 0 1; moveOf player1 X 0 2;
    moveOf player2 O 1 1; moveOf player1 X 1 0; moveOf player2 O 1 2;
    moveOf player1 X 2 1; moveOf player2 O 2 0; moveOf player1 X 2 2 ]%Z.

(** Whether a list of moves is a full board without a line: all nine
    cells occur, and no row, column or diagonal has one piece at its
    three cells. *)
Definition cell_piece (ms : list GameMove.t) (r c : Z) : option Piece :=
  match find (fun m => (TicTacToeMove.row (GameMove.move m) =? r)%Z
                       && (TicTacToeMove.col (GameMove.move m) =? c)%Z) ms with
  | Some m => Some (TicTacToeMove.gamePiece (GameMove.move m))
  | None => None
  end.

Definition board_lines : list (list (Z * Z)) :=
  [ [(0,0);(0,1);(0,2)]; [(1,0);(1,1);(1,2)]; [(2,0);(2,1);(2,2)];
    [(0,0);(1,0);(2,0)]; [(0,1);(1,1);(2,1)]; [(0,2);(1,2);(2,2)];
    [(0,0);(1,1);(2,2)]; [(0,2);(1,1);(2,0)] ]%Z.

Definition line_of (ms : list GameMove.t) (p : Piece) (l : list (Z * Z))
  : bool :=
  forallb (fun rc => match cell_piece ms (fst rc) (snd rc) with
                     | Some q => Piece_eqb q p
                     | None => false
                     end) l.

Definition full_board_no_line (ms : list GameMove.t) : bool :=
  (length ms =? 9)
  && forallb (fun l => forallb (fun rc =>
                match cell_piece ms (fst rc) (snd rc) with
                | Some _ => true | None => false end) l) board_lines
  && negb (existsb (line_of ms X) board_lines)
  && negb (existsb (line_of ms O) board_lines).

(** An area with no game, an area hosting [two_player_game]. *)
Definition empty_area : Area.t := Area.mk None [] 0.
Definition playing_area : Area.t := Area.mk (Some two_player_game) [] 0.

(** Modelled from the spec: [lib/InvalidParametersError], which defines
    the message constants, is not among the sources.  Section 6 of the
    spec lists the message strings; these are the values used where a
    concrete instance of the constants is needed. *)
Module SpecMessages.
Definition GAME_NOT_IN_PROGRESS_MESSAGE := "GameNotInProgress".
Definition INVALID_COMMAND_MESSAGE := "UnsupportedCommand".
Definition GAME_FULL_MESSAGE := "GameFull".
Definition PLAYER_ALREADY_IN_GAME_MESSAGE := "PlayerAlreadyInGame".
Definition PLAYER_NOT_IN_GAME_MESSAGE := "PlayerNotInGame".
End SpecMessages.

(** ** The imported message constants

    [lib/InvalidParametersError] exports the message constants; the
    methods below are stated for every value of the constants they
    import. *)
Section ImportedMessages.

Variables GAME_NOT_IN_PROGRESS_MESSAGE INVALID_COMMAND_MESSAGE
          GAME_FULL_MESSAGE PLAYER_ALREADY_IN_GAME_MESSAGE
          PLAYER_NOT_IN_GAME_MESSAGE : string.

(** [_join]: both [throw]s precede the assignments. *)
Definition _join (g : Game.t) (player : Player.t) : Completion Game.t :=
  if existsb (fun p => String.eqb (Player.id p) (Player.id player))
       (Game._players g) then
    Throw (InvalidParametersError PLAYER_ALREADY_IN_GAME_MESSAGE)
  else if 2 <=? length (Game._players g) then
    Throw (InvalidParametersError GAME_FULL_MESSAGE)
  else if length (Game._players g) =? 0 then
    Normal (with_state g (set_x (Game.state g) (Some (Player.id player))))
  else if length (Game._players g) =? 1 then
    Normal (with_state g
              (set_status (set_o (Game.state g) (Some (Player.id player)))
                 IN_PROGRESS))
  else
    Normal g.

(** [_leave]: the [throw] precedes the assignments; [this._players[0]]
    is read only when the filtered list has one element. *)
Definition _leave (g : Game.t) (player : Player.t) : Completion Game.t :=
  if negb (existsb (fun p => String.eqb (Player.id p) (Player.id player))
             (Game._players g)) then
    Throw (InvalidParametersError PLAYER_NOT_IN_GAME_MESSAGE)
  else
    let players :=
      filter (fun p => negb (String.eqb (Player.id p) (Player.id player)))
        (Game._players g) in
    let g1 := with_players g players in
    match players with
    | [p0] =>
        Normal (with_state g1
                  (set_winner (set_status (Game.state g1) OVER)
                     (Some (Player.id p0))))
    | [] =>
        Normal (with_state g1 (set_status (Game.state g1) WAITING_TO_START))
    | _ => Normal g1
    end.

(** Modelled from the spec: the base class [Game] (Game.ts), whose
    public [join] wraps [_join], is not among the sources.  The spec
    has join add the player to the match: the wrapper runs [_join] and,
    when it does not throw, appends the player to [_players]. *)
Definition join (g : Game.t) (player : Player.t) : Completion Game.t :=
  match _join g player with
  | Normal g' => Normal (with_players g' (Game._players g' ++ [player]))
  | Throw e => Throw e
  end.

(** Modelled from the spec: the public [leave] of the base class [Game]
    (Game.ts, not among the sources) wraps [_leave].  The spec has leave
    remove the player from the match: the wrapper runs [_leave] and,
    when it does not throw, removes the player from [_players]. *)
Definition leave (g : Game.t) (player : Player.t) : Completion Game.t :=
  match _leave g player with
  | Normal g' =>
      Normal (with_players g'
                (filter
                 (fun p => negb (String.eqb (Player.id p) (Player.id player)))
                 (Game._players g')))
  | Throw e => Throw e
  end.

(** ** TicTacToeGameArea *)

(** [catch (error) { throw new InvalidParametersError(error.message) }]:
    the engine throws only [InvalidParametersError], an [Error]. *)
Definition rethrow (e : Error) : Error := InvalidParametersError (message e).

(** [this._emitAreaChanged()] *)
Definition _emitAreaChanged (a : Area.t) : Area.t :=
  Area.mk (Area._game a) (Area._history a) (S (Area.emitted a)).

Definition set_game (a : Area.t) (g : option Game.t) : Area.t :=
  Area.mk g (Area._history a) (Area.emitted a).

(** [this._history.push({ gameID, scores: { [player.userName]: 0 } })] *)
Definition push_history (a : Area.t) (gameID : GameInstanceID)
    (player : Player.t) : Area.t :=
  Area.mk (Area._game a)
    (Area._history a
       ++ [GameResult.mk gameID [(Player.userName player, 0%Z)]])
    (Area.emitted a).

(** [handleCommand]: the area after the call and the completion of the
    call.  [nid] is the identifier [nanoid()] gives if the call
    constructs a game. *)
Definition handleCommand (a : Area.t) (command : InteractableCommand)
    (player : Player.t) (nid : GameInstanceID)
  : Area.t * Completion CommandReturn :=
  match command with
  | JoinGameCommand =>
      let g0 :=
        match Area._game a with
        | None => new_TicTacToeGame nid
        | Some g =>
            if GameStatus_eqb (TicTacToeGameState.status (Game.state g)) OVER
            then new_TicTacToeGame nid
            else g
        end in
      let a0 := set_game a (Some g0) in
      match join g0 player with
      | Normal g1 =>
          let a1 := set_game a0 (Some g1) in
          let a2 :=
            if GameStatus_eqb (TicTacToeGameState.status (Game.state g1))
                 IN_PROGRESS
            then _emitAreaChanged a1
            else a1 in
          (a2, Normal (ReturnGameID (Game.id g1)))
      | Throw error => (a0, Throw (rethrow error))
      end
  | GameMoveCommand _ move =>
      match Area._game a with
      | None =>
          (a, Throw (InvalidParametersError GAME_NOT_IN_PROGRESS_MESSAGE))
      | Some g =>
          if negb (GameStatus_eqb (TicTacToeGameState.status (Game.state g))
                     IN_PROGRESS)
          then (a, Throw (InvalidParametersError GAME_NOT_IN_PROGRESS_MESSAGE))
          else
            let gameMove := GameMove.mk (Player.id player) (Game.id g) move in
            match applyMove g gameMove with
            | Normal g1 =>
                let a1 := set_game a (Some g1) in
                let a2 :=
                  if GameStatus_eqb
                       (TicTacToeGameState.status (Game.state g1)) OVER
                  then set_game (push_history a1 (Game.id g1) player) None
                  else a1 in
                (_emitAreaChanged a2, Normal ReturnEmpty)
            | Throw error => (a, Throw (rethrow error))
            end
      end
  | LeaveGameCommand _ =>
      match Area._game a with
      | None =>
          (a, Throw (InvalidParametersError GAME_NOT_IN_PROGRESS_MESSAGE))
      | Some g =>
          if negb (GameStatus_eqb (TicTacToeGameState.status (Game.state g))
                     IN_PROGRESS)
          then (a, Throw (InvalidParametersError GAME_NOT_IN_PROGRESS_MESSAGE))
          else
            match leave g player with
            | Normal g1 =>
                let a1 := set_game a (Some g1) in
                let a2 :=
                  if GameStatus_eqb
                       (TicTacToeGameState.status (Game.state g1)) OVER
                  then set_game (push_history a1 (Game.id g1) player) None
                  else a1 in
                (_emitAreaChanged a2, Normal ReturnEmpty)
            | Throw error => (a, Throw (rethrow error))
            end
      end
  | OtherCommand _ =>
      (a, Throw (InvalidParametersError INVALID_COMMAND_MESSAGE))
  end.

(** The engine call that a GameMove or a LeaveGame command of [player]
    is delegated to, made on the game [g], completed normally and left
    the game as [g']. *)
Definition delegates_to (command : InteractableCommand) (player : Player.t)
    (g g' : Game.t) : Prop :=
  (exists gid mv,
      command = GameMoveCommand gid mv
      /\ applyMove g (GameMove.mk (Player.id player) (Game.id g) mv)
         = Normal g')
  \/ (exists gid, command = LeaveGameCommand gid /\ leave g player = Normal g').

(** Some move of the log is at row [r] and column [c] with the piece
    [p]. *)
Definition placed (moves : list TicTacToeMove.t) (p : Piece) (r c : Z)
  : Prop :=
  exists move,
    In move moves
    /\ TicTacToeMove.row move = r
    /\ TicTacToeMove.col move = c
    /\ TicTacToeMove.gamePiece move = p.

(** The games that successful calls of the public methods [join],
    [leave] and [applyMove] produce from a newly constructed game (a
    call that throws leaves the game as it was). *)
Inductive reachable : Game.t -> Prop :=
| reachable_new (nid : GameInstanceID) : reachable (new_TicTacToeGame nid)
| reachable_join (g g' : Game.t) (p : Player.t) :
    reachable g -> join g p = Normal g' -> reachable g'
| reachable_leave (g g' : Game.t) (p : Player.t) :
    reachable g -> leave g p = Normal g' -> reachable g'
| reachable_applyMove (g g' : Game.t) (m : GameMove.t) :
    reachable g -> applyMove g m = Normal g' -> reachable g'.

(** A run of commands: each call of [handleCommand] is made on the area
    the previous call left, whether that call threw or not.  A command
    comes with the player making it and the identifier [nanoid()] would
    give during the call. *)
Definition handleCommands (a : Area.t)
    (cs : list (InteractableCommand * Player.t * GameInstanceID)) : Area.t :=
  fold_left
    (fun a c => fst (handleCommand a (fst (fst c)) (snd (fst c)) (snd c)))
    cs a.

(** What holds of every game the public methods produce: the move log
    is empty, the players have distinct identifiers, an X player is set
    as soon as there is a player, and the status goes with the number
    of players. *)
Definition engine_invariant (g : Game.t) : Prop :=
  TicTacToeGameState.moves (Game.state g) = []
  /\ NoDup (map Player.id (Game._players g))
  /\ (Game._players g <> [] -> TicTacToeGameState.x (Game.state g) <> None)
  /\ match TicTacToeGameState.status (Game.state g) with
     | IN_PROGRESS =>
         length (Game._players g) = 2
         /\ TicTacToeGameState.o (Game.state g) <> None
     | OVER =>
         exists q,
           Game._players g = [q]
           /\ TicTacToeGameState.winner (Game.state g) = Some (Player.id q)
     | WAITING_TO_START => length (Game._players g) <= 1
     end.

(** What holds of every area that runs of commands produce from an area
    without a game: the active game, if any, is one the public methods
    of the engine produce, and it is not OVER. *)
Definition area_invariant (a : Area.t) : Prop :=
  match Area._game a with
  | None => True
  | Some g =>
      reachable g /\ TicTacToeGameState.status (Game.state g) <> OVER
  end.

(** ** Properties of the engine *)

Ltac break_if :=
  match goal with
  | H : context [if ?b then _ else _] |- _ => destruct b eqn:?
  | |- context [if ?b then _ else _] => destruct b eqn:?
  end.

Lemma GameStatus_eqb_eq (a b : GameStatus) :
  GameStatus_eqb a b = true <-> a = b.
Proof. destruct a, b; simpl; split; congruence. Qed.

Lemma lineCount_nil (cell : Z -> Z * Z) (p : Piece) : lineCount [] cell p = 0.
Proof. reflexivity. Qed.

(** A successful [applyMove] was made on a game in progress at a free
    position, and changes neither the move log, nor the identifier, nor
    the players. *)
Lemma applyMove_Normal (g g' : Game.t) (m : GameMove.t) :
  applyMove g m = Normal g' ->
  TicTacToeGameState.status (Game.state g) = IN_PROGRESS
  /\ _isPositionOccupied g (TicTacToeMove.row (GameMove.move m))
       (TicTacToeMove.col (GameMove.move m)) = false
  /\ TicTacToeGameState.moves (Game.state g')
     = TicTacToeGameState.moves (Game.state g)
  /\ Game.id g' = Game.id g
  /\ Game._players g' = Game._players g.
Proof.
  unfold applyMove. intros H.
  destruct (GameStatus_eqb _ IN_PROGRESS) eqn:Hs; simpl in H; [|discriminate].
  apply GameStatus_eqb_eq in Hs.
  repeat break_if; try discriminate; inversion H; subst; simpl; auto.
Qed.

(** With an empty move log a successful [applyMove] changes nothing. *)
Lemma applyMove_empty_log (g g' : Game.t) (m : GameMove.t) :
  TicTacToeGameState.moves (Game.state g) = [] ->
  applyMove g m = Normal g' -> g' = g.
Proof.
  unfold applyMove, _checkForWin. intros Hm H. rewrite Hm in H.
  rewrite !lineCount_nil in H. simpl in H. rewrite !andb_false_r in H.
  repeat break_if; try discriminate; congruence.
Qed.

(** No sequence of moves changes the game two players have joined. *)
Lemma applyMoves_two_player_game (ms : list GameMove.t) :
  applyMoves two_player_game ms = two_player_game.
Proof.
  unfold applyMoves. induction ms as [|m ms IH]; simpl; [reflexivity|].
  destruct (applyMove two_player_game m) as [g'|e] eqn:H; [|exact IH].
  apply applyMove_empty_log in H; [|reflexivity]. subst g'. exact IH.
Qed.

(** [_checkForWin] never holds at a free cell of the grid. *)
Lemma _checkForWin_free_cell (g : Game.t) (row col : Z) (p : Piece) :
  (0 <= row <= 2)%Z -> (0 <= col <= 2)%Z ->
  _isPositionOccupied g row col = false ->
  _checkForWin g row col p = false.
Proof.
  intros Hr Hc Hfree. unfold _isPositionOccupied in Hfree.
  assert (Hno : forall r c, r = row -> c = col ->
            existsb (fun move =>
                       (TicTacToeMove.row move =? r)%Z
                       && (TicTacToeMove.col move =? c)%Z
                       && Piece_eqb (TicTacToeMove.gamePiece move) p)
              (TicTacToeGameState.moves (Game.state g)) = false).
  { intros r c -> ->.
    induction (TicTacToeGameState.moves (Game.state g)) as [|m ms IH];
      simpl in *; [reflexivity|].
    apply orb_false_iff in Hfree as [H1 H2].
    rewrite H1, (IH H2). reflexivity. }
  unfold _checkForWin, lineCount.
  assert (row = 0 \/ row = 1 \/ row = 2)%Z as Hrow by lia.
  assert (col = 0 \/ col = 1 \/ col = 2)%Z as Hcol by lia.
  destruct Hrow as [-> | [-> | ->]], Hcol as [-> | [-> | ->]];
    cbn [filter fst snd Z.eqb Z.add Z.sub Z.opp Z.pos_sub Pos.eqb
         Pos.add Pos.succ Pos.pred_double Z.succ_double Z.pred_double Z.double
         andb];
    rewrite ?(Hno _ _ eq_refl eq_refl);
    repeat match goal with
           | |- context [existsb ?f ?l] => destruct (existsb f l)
           end; reflexivity.
Qed.

(** On the grid, a successful [applyMove] on a log of fewer than nine
    moves changes nothing at all. *)
Lemma applyMove_in_grid (g g' : Game.t) (m : GameMove.t) :
  (0 <= TicTacToeMove.row (GameMove.move m) <= 2)%Z ->
  (0 <= TicTacToeMove.col (GameMove.move m) <= 2)%Z ->
  length (TicTacToeGameState.moves (Game.state g)) <> 9 ->
  applyMove g m = Normal g' -> g' = g.
Proof.
  intros Hr Hc Hlen H.
  destruct (applyMove_Normal _ _ _ H) as (_ & Hfree & _).
  unfold applyMove in H.
  rewrite (_checkForWin_free_cell _ _ _ _ Hr Hc Hfree) in H.
  apply Nat.eqb_neq in Hlen. rewrite Hlen in H.
  repeat break_if; try discriminate; congruence.
Qed.

(** C1: the first move of the test, X at (0,0) by the first joiner on
    the game two players have joined, is accepted, and the move log is
    as long afterwards as before: the move is not appended. *)
Theorem applyMove_does_not_append :
  applyMove two_player_game (moveOf player1 X 0 0) = Normal two_player_game
  /\ length (TicTacToeGameState.moves (Game.state two_player_game)) = 0
  /\ ~ In (GameMove.move (moveOf player1 X 0 0))
         (TicTacToeGameState.moves (Game.state two_player_game)).
Proof. repeat split. simpl. tauto. Qed.

(** C2: on the five moves X:(0,0), O:(0,1), X:(1,0), O:(1,1), X:(2,0)
    after both players joined, the move of O is rejected as out of turn,
    and after the five calls the game is still IN_PROGRESS without a
    winner. *)
Theorem column_win_not_detected :
  applyMove two_player_game (moveOf player2 O 0 1)
  = Throw (InvalidParametersError "MOVE_NOT_YOUR_TURN_MESSAGE")
  /\ map (fun m => is_normal (applyMove two_player_game m)) column_win_moves
     = [true; false; true; false; true]
  /\ applyMoves two_player_game column_win_moves = two_player_game
  /\ TicTacToeGameState.status
       (Game.state (applyMoves two_player_game column_win_moves))
     = IN_PROGRESS
  /\ TicTacToeGameState.winner
       (Game.state (applyMoves two_player_game column_win_moves))
     = None.
Proof. repeat split. Qed.

(** C3: on nine alternating moves that fill the board without a line,
    the game is still IN_PROGRESS after the nine calls. *)
Theorem tie_not_detected :
  full_board_no_line tie_moves = true
  /\ applyMoves two_player_game tie_moves = two_player_game
  /\ TicTacToeGameState.status
       (Game.state (applyMoves two_player_game tie_moves))
     = IN_PROGRESS.
Proof. repeat split. Qed.

(** C10: a move by a player who is neither the X player nor the O
    player is given the piece O, and on a game in progress with an odd
    number of logged moves and a free target position it is accepted. *)
Theorem applyMove_accepts_non_occupant (g : Game.t) (m : GameMove.t) :
  Some (GameMove.playerID m) <> TicTacToeGameState.x (Game.state g) ->
  Some (GameMove.playerID m) <> TicTacToeGameState.o (Game.state g) ->
  currentPlayerPiece (TicTacToeGameState.x (Game.state g))
    (GameMove.playerID m) = O
  /\ (TicTacToeGameState.status (Game.state g) = IN_PROGRESS ->
      Nat.odd (length (TicTacToeGameState.moves (Game.state g))) = true ->
      _isPositionOccupied g (TicTacToeMove.row (GameMove.move m))
        (TicTacToeMove.col (GameMove.move m)) = false ->
      exists g', applyMove g m = Normal g').
Proof.
  intros Hx _.
  assert (Hp : currentPlayerPiece (TicTacToeGameState.x (Game.state g))
                 (GameMove.playerID m) = O).
  { unfold currentPlayerPiece, id_is.
    destruct (TicTacToeGameState.x (Game.state g)) as [x|]; [|reflexivity].
    destruct (String.eqb_spec (GameMove.playerID m) x); [|reflexivity].
    subst. congruence. }
  split; [exact Hp|].
  intros Hs Hodd Hfree. unfold applyMove.
  assert (Hmod : length (TicTacToeGameState.moves (Game.state g)) mod 2 = 1).
  { rewrite <- Nat.bit0_mod, Nat.bit0_odd, Hodd. reflexivity. }
  rewrite Hp, Hs, Hfree, Hmod. simpl.
  repeat break_if; eauto.
Qed.

Lemma filter_twice {A} (f : A -> bool) (l : list A) :
  filter f (filter f l) = filter f l.
Proof.
  induction l as [|a l IH]; simpl; [reflexivity|].
  destruct (f a) eqn:Ha; simpl; rewrite ?Ha, IH; reflexivity.
Qed.

(** A successful [_leave] keeps the identifier, the move log, and
    leaves as players those with another identity. *)
Lemma _leave_Normal (g g' : Game.t) (player : Player.t) :
  _leave g player = Normal g' ->
  Game.id g' = Game.id g
  /\ Game._players g'
     = filter (fun p => negb (String.eqb (Player.id p) (Player.id player)))
         (Game._players g)
  /\ TicTacToeGameState.moves (Game.state g')
     = TicTacToeGameState.moves (Game.state g).
Proof.
  unfold _leave. intros H. break_if; [discriminate|].
  destruct (filter _ (Game._players g)) as [|p0 [|p1 ps]];
    inversion H; subst; simpl; auto.
Qed.

(** C7: on a freshly created game the first join makes the joiner the
    X player and leaves the status WAITING_TO_START; the join of a
    second, different player then makes that player the O player and
    sets the status to IN_PROGRESS. *)
Theorem join_ordering (nid : GameInstanceID) (p1 p2 : Player.t) :
  Player.id p1 <> Player.id p2 ->
  exists g1 g2,
    join (new_TicTacToeGame nid) p1 = Normal g1
    /\ TicTacToeGameState.x (Game.state g1) = Some (Player.id p1)
    /\ TicTacToeGameState.o (Game.state g1) = None
    /\ TicTacToeGameState.status (Game.state g1) = WAITING_TO_START
    /\ join g1 p2 = Normal g2
    /\ TicTacToeGameState.x (Game.state g2) = Some (Player.id p1)
    /\ TicTacToeGameState.o (Game.state g2) = Some (Player.id p2)
    /\ TicTacToeGameState.status (Game.state g2) = IN_PROGRESS.
Proof.
  intros Hne. apply String.eqb_neq in Hne.
  eexists. eexists.
  split; [reflexivity|]. simpl.
  repeat (split; [reflexivity|]).
  unfold join, _join. simpl. rewrite Hne. simpl.
  repeat split.
Qed.

(** C5 (amended): when the leave of a player succeeds, through [_leave]
    itself or through the public [leave], and no player remains, the
    status becomes WAITING_TO_START and the winner field is left as it
    was. *)
Theorem leave_last_player (g g' : Game.t) (player : Player.t) :
  _leave g player = Normal g' \/ leave g player = Normal g' ->
  Game._players g' = [] ->
  TicTacToeGameState.status (Game.state g') = WAITING_TO_START
  /\ TicTacToeGameState.winner (Game.state g')
     = TicTacToeGameState.winner (Game.state g).
Proof.
  assert (Hprivate : forall g1,
             _leave g player = Normal g1 -> Game._players g1 = [] ->
             TicTacToeGameState.status (Game.state g1) = WAITING_TO_START
             /\ TicTacToeGameState.winner (Game.state g1)
                = TicTacToeGameState.winner (Game.state g)).
  { intros g1 Hl Hempty.
    destruct (_leave_Normal _ _ _ Hl) as (_ & Hps & _).
    rewrite Hps in Hempty.
    unfold _leave in Hl. break_if; [discriminate|].
    rewrite Hempty in Hl. inversion Hl; subst g1. simpl. auto. }
  intros [H | H] Hempty; [exact (Hprivate g' H Hempty)|].
  unfold leave in H.
  destruct (_leave g player) as [g1|e] eqn:Hl; [|discriminate].
  inversion H; subst g'; clear H. simpl in *.
  destruct (_leave_Normal _ _ _ Hl) as (_ & Hps & _).
  rewrite Hps, filter_twice, <- Hps in Hempty.
  exact (Hprivate g1 eq_refl Hempty).
Qed.

(** ** Properties of the dispatcher *)

(** The [gameID] of a GameMove or LeaveGame command is never read. *)
Lemma handleCommand_ignores_gameID (a : Area.t) (player : Player.t)
    (nid gid gid' : GameInstanceID) (mv : TicTacToeMove.t) :
  handleCommand a (GameMoveCommand gid mv) player nid
  = handleCommand a (GameMoveCommand gid' mv) player nid
  /\ handleCommand a (LeaveGameCommand gid) player nid
     = handleCommand a (LeaveGameCommand gid') player nid.
Proof. split; reflexivity. Qed.

(** A command that throws makes no call of [_emitAreaChanged] and
    leaves the history as it was. *)
Lemma handleCommand_Throw (a : Area.t) (command : InteractableCommand)
    (player : Player.t) (nid : GameInstanceID) :
  is_normal (snd (handleCommand a command player nid)) = false ->
  Area.emitted (fst (handleCommand a command player nid)) = Area.emitted a
  /\ Area._history (fst (handleCommand a command player nid))
     = Area._history a.
Proof.
  unfold handleCommand. destruct command; simpl.
  - destruct (join _ player); simpl; [discriminate|auto].
  - destruct (Area._game a) as [g|]; simpl; [|auto].
    break_if; simpl; [auto|].
    destruct (applyMove _ _); simpl; [discriminate|auto].
  - destruct (Area._game a) as [g|]; simpl; [|auto].
    break_if; simpl; [auto|].
    destruct (leave _ _); simpl; [discriminate|auto].
  - auto.
Qed.

(** A GameMove or LeaveGame command that completes normally makes one
    call of [_emitAreaChanged]. *)
Lemma handleCommand_move_leave_emits (a : Area.t)
    (command : InteractableCommand) (player : Player.t)
    (nid : GameInstanceID) :
  command <> JoinGameCommand ->
  is_normal (snd (handleCommand a command player nid)) = true ->
  Area.emitted (fst (handleCommand a command player nid))
  = S (Area.emitted a).
Proof.
  unfold handleCommand. destruct command; simpl; intros Hc.
  - congruence.
  - destruct (Area._game a) as [g|]; simpl; [|discriminate].
    break_if; simpl; [discriminate|].
    destruct (applyMove _ _); simpl; [|discriminate].
    break_if; reflexivity.
  - destruct (Area._game a) as [g|]; simpl; [|discriminate].
    break_if; simpl; [discriminate|].
    destruct (leave _ _); simpl; [|discriminate].
    break_if; reflexivity.
  - discriminate.
Qed.

(** An error of the engine reaches the caller of [handleCommand] with
    its message. *)
Lemma handleCommand_keeps_engine_message (a : Area.t) (g : Game.t)
    (gid nid : GameInstanceID) (mv : TicTacToeMove.t) (player : Player.t)
    (e : Error) :
  Area._game a = Some g ->
  TicTacToeGameState.status (Game.state g) = IN_PROGRESS ->
  applyMove g (GameMove.mk (Player.id player) (Game.id g) mv) = Throw e ->
  exists e', snd (handleCommand a (GameMoveCommand gid mv) player nid)
             = Throw e'
             /\ message e' = message e.
Proof.
  intros Hg Hs He. unfold handleCommand. rewrite Hg, Hs. simpl.
  rewrite He. simpl. eexists. split; reflexivity.
Qed.

(** C4: with an active game in progress, a GameMove command whose
    [gameID] differs from the identifier of the active game is not
    rejected: the move is delegated, the command completes normally and
    a change is emitted. *)
Theorem GameMove_with_other_gameID_accepted (nid : GameInstanceID) :
  "another-game" <> Game.id two_player_game
  /\ Area._game playing_area = Some two_player_game
  /\ TicTacToeGameState.status (Game.state two_player_game) = IN_PROGRESS
  /\ handleCommand playing_area
       (GameMoveCommand "another-game" (TicTacToeMove.mk X 0 0)) player1 nid
     = (_emitAreaChanged playing_area, Normal ReturnEmpty).
Proof. repeat split. discriminate. Qed.

(** C6: unless the imported constant GAME_NOT_IN_PROGRESS_MESSAGE has
    its own name as value, the engine and the dispatcher raise the
    game-not-in-progress error with two different messages: the engine
    with the quoted name of the constant, the dispatcher with its
    value. *)
Theorem GameNotInProgress_messages_differ (nid gid : GameInstanceID)
    (m : GameMove.t) (mv : TicTacToeMove.t) (player : Player.t) :
  GAME_NOT_IN_PROGRESS_MESSAGE <> "GAME_NOT_IN_PROGRESS_MESSAGE" ->
  exists e_engine e_dispatcher,
    applyMove (new_TicTacToeGame nid) m = Throw e_engine
    /\ snd (handleCommand empty_area (GameMoveCommand gid mv) player nid)
       = Throw e_dispatcher
    /\ message e_engine = "GAME_NOT_IN_PROGRESS_MESSAGE"
    /\ message e_dispatcher = GAME_NOT_IN_PROGRESS_MESSAGE
    /\ message e_engine <> message e_dispatcher.
Proof.
  intros Hne. do 2 eexists.
  repeat (split; [reflexivity|]). simpl. congruence.
Qed.

(** C9: the first JoinGame command on an area without a game completes
    normally and puts a game with the joiner in the area, and no change
    is emitted. *)
Theorem first_join_emits_nothing :
  handleCommand empty_area JoinGameCommand player1 "game1"
  = (Area.mk (Some one_player_game) [] 0, Normal (ReturnGameID "game1"))
  /\ Area._game empty_area <> Some one_player_game
  /\ Area.emitted
       (fst (handleCommand empty_area JoinGameCommand player1 "game1"))
     = Area.emitted empty_area.
Proof. repeat split. discriminate. Qed.

(** C8: a GameMove or LeaveGame command that completes normally and
    leaves the status of the game OVER appends one record with the
    identifier of that game to the history and clears the active game,
    after which a JoinGame command joins a newly constructed game; in
    every other case the history is left as it was. *)
Theorem history_records_ended_games (a : Area.t)
    (command : InteractableCommand) (player : Player.t)
    (nid : GameInstanceID) :
  let a' := fst (handleCommand a command player nid) in
  (forall g g',
      Area._game a = Some g ->
      is_normal (snd (handleCommand a command player nid)) = true ->
      delegates_to command player g g' ->
      TicTacToeGameState.status (Game.state g') = OVER ->
      Area._history a'
      = Area._history a
          ++ [GameResult.mk (Game.id g) [(Player.userName player, 0%Z)]]
      /\ Area._game a' = None
      /\ forall p2 nid2,
          exists g2,
            join (new_TicTacToeGame nid2) p2 = Normal g2
            /\ Area._game (fst (handleCommand a' JoinGameCommand p2 nid2))
               = Some g2)
  /\ ((forall g g',
          Area._game a = Some g ->
          is_normal (snd (handleCommand a command player nid)) = true ->
          delegates_to command player g g' ->
          TicTacToeGameState.status (Game.state g') <> OVER) ->
      Area._history a' = Area._history a).
Proof.
  cbv zeta. split.
  - intros g g' Hg Hok Hd Hover.
    destruct Hd as [(gid & mv & -> & Hcall) | (gid & -> & Hcall)];
      unfold handleCommand in *; rewrite Hg in *; simpl in *.
    + destruct (GameStatus_eqb _ IN_PROGRESS); simpl in *; [|discriminate].
      rewrite Hcall in *. simpl in *. rewrite Hover. simpl.
      destruct (applyMove_Normal _ _ _ Hcall) as (_ & _ & _ & Hid & _).
      rewrite Hid. repeat split. intros p2 nid2. eexists. split; reflexivity.
    + destruct (GameStatus_eqb _ IN_PROGRESS); simpl in *; [|discriminate].
      rewrite Hcall in *. simpl in *. rewrite Hover. simpl.
      assert (Hid : Game.id g' = Game.id g).
      { unfold leave in Hcall.
        destruct (_leave g player) as [g1|] eqn:Hl; [|discriminate].
        inversion Hcall; subst g'. simpl.
        apply (_leave_Normal _ _ _ Hl). }
      rewrite Hid. repeat split. intros p2 nid2. eexists. split; reflexivity.
  - intros Hnot. unfold handleCommand in *.
    destruct command as [| gid mv | gid | ty]; simpl in *.
    + destruct (join _ player); simpl; [|reflexivity].
      break_if; reflexivity.
    + destruct (Area._game a) as [g|]; simpl in *; [|reflexivity].
      destruct (GameStatus_eqb _ IN_PROGRESS); simpl in *; [|reflexivity].
      destruct (applyMove g _) as [g1|e] eqn:Hcall; simpl in *;
        [|reflexivity].
      destruct (GameStatus_eqb _ OVER) eqn:Hs; simpl; [|reflexivity].
      apply GameStatus_eqb_eq in Hs.
      exfalso. apply (Hnot g g1 eq_refl eq_refl); [|exact Hs].
      left. exists gid, mv. split; [reflexivity|exact Hcall].
    + destruct (Area._game a) as [g|]; simpl in *; [|reflexivity].
      destruct (GameStatus_eqb _ IN_PROGRESS); simpl in *; [|reflexivity].
      destruct (leave g player) as [g1|e] eqn:Hcall; simpl in *;
        [|reflexivity].
      destruct (GameStatus_eqb _ OVER) eqn:Hs; simpl; [|reflexivity].
      apply GameStatus_eqb_eq in Hs.
      exfalso. apply (Hnot g g1 eq_refl eq_refl); [|exact Hs].
      right. exists gid. split; [reflexivity|exact Hcall].
    + reflexivity.
Qed.

(** ** Further properties of the engine *)

Lemma Piece_eqb_eq (a b : Piece) : Piece_eqb a b = true <-> a = b.
Proof. destruct a, b; simpl; split; congruence. Qed.

Lemma existsb_placed (moves : list TicTacToeMove.t) (p : Piece) (r c : Z) :
  existsb (fun move =>
             (TicTacToeMove.row move =? r)%Z
             && (TicTacToeMove.col move =? c)%Z
             && Piece_eqb (TicTacToeMove.gamePiece move) p) moves = true
  <-> placed moves p r c.
Proof.
  rewrite existsb_exists. unfold placed.
  split; intros (move & Hin & H); exists move; (split; [exact Hin|]).
  - apply andb_true_iff in H as [H Hp]. apply andb_true_iff in H as [Hr Hc].
    apply Z.eqb_eq in Hr, Hc. apply Piece_eqb_eq in Hp. auto.
  - destruct H as (Hr & Hc & Hp).
    rewrite !andb_true_iff, !Z.eqb_eq, Piece_eqb_eq. auto.
Qed.

(** A loop of [_checkForWin] counts three exactly when the piece is
    placed at each of its three cells. *)
Lemma lineCount_three (moves : list TicTacToeMove.t) (cell : Z -> Z * Z)
    (p : Piece) :
  lineCount moves cell p = 3
  <-> placed moves p (fst (cell 0%Z)) (snd (cell 0%Z))
      /\ placed moves p (fst (cell 1%Z)) (snd (cell 1%Z))
      /\ placed moves p (fst (cell 2%Z)) (snd (cell 2%Z)).
Proof.
  rewrite <- !existsb_placed. unfold lineCount. cbn [filter].
  repeat match goal with
         | |- context [existsb ?f ?l] => destruct (existsb f l)
         end; simpl; intuition discriminate.
Qed.

(** X1: [_checkForWin] holds exactly when the piece is placed at all
    three cells of the row of the given cell, or of its column, or, for
    a cell on a diagonal, of that diagonal. *)
Theorem _checkForWin_iff_line (g : Game.t) (row col : Z) (p : Piece) :
  let on := placed (TicTacToeGameState.moves (Game.state g)) p in
  _checkForWin g row col p = true
  <-> (on row 0%Z /\ on row 1%Z /\ on row 2%Z)
      \/ (on 0%Z col /\ on 1%Z col /\ on 2%Z col)
      \/ (row = col /\ on 0%Z 0%Z /\ on 1%Z 1%Z /\ on 2%Z 2%Z)
      \/ ((row + col)%Z = 2%Z /\ on 0%Z 2%Z /\ on 1%Z 1%Z /\ on 2%Z 0%Z).
Proof.
  cbv zeta. unfold _checkForWin.
  set (moves := TicTacToeGameState.moves (Game.state g)).
  pose proof (lineCount_three moves (fun i => (row, i)) p) as Hrow.
  pose proof (lineCount_three moves (fun i => (i, col)) p) as Hcol.
  pose proof (lineCount_three moves (fun i => (i, i)) p) as Hdiag.
  pose proof (lineCount_three moves (fun i => (i, 2 - i)%Z) p) as Hanti.
  cbn [fst snd] in *. change (2 - 0)%Z with 2%Z in Hanti.
  change (2 - 1)%Z with 1%Z in Hanti. change (2 - 2)%Z with 0%Z in Hanti.
  destruct (Nat.eqb_spec (lineCount moves (fun i => (row, i)) p) 3) as [E1|E1];
    [tauto|].
  destruct (Nat.eqb_spec (lineCount moves (fun i => (i, col)) p) 3) as [E2|E2];
    [tauto|].
  destruct (Z.eqb_spec row col) as [E3|E3];
    destruct (Nat.eqb_spec (lineCount moves (fun i => (i, i)) p) 3)
      as [E4|E4];
    destruct (Z.eqb_spec (row + col) 2) as [E5|E5];
    destruct (Nat.eqb_spec (lineCount moves (fun i => (i, 2 - i)%Z) p) 3)
      as [E6|E6];
    simpl; split; intros H; try tauto; try discriminate.
Qed.

Lemma mod2_even (n : nat) : (n mod 2 =? 0) = Nat.even n.
Proof.
  rewrite <- Nat.bit0_mod, Nat.bit0_odd, <- Nat.negb_odd.
  destruct (Nat.odd n); reflexivity.
Qed.

Lemma id_is_Some (a : PlayerID) (b : option PlayerID) :
  id_is a b = true <-> Some a = b.
Proof.
  unfold id_is. destruct b as [b|]; [|split; discriminate].
  rewrite String.eqb_eq. split; congruence.
Qed.

(** X2: [applyMove] accepts a move exactly when the game is in progress,
    the target position is free, and the mover is the X player on a log
    of even length or anyone else on a log of odd length. *)
Theorem applyMove_accepts_iff (g : Game.t) (m : GameMove.t) :
  is_normal (applyMove g m) = true
  <-> TicTacToeGameState.status (Game.state g) = IN_PROGRESS
      /\ _isPositionOccupied g (TicTacToeMove.row (GameMove.move m))
           (TicTacToeMove.col (GameMove.move m)) = false
      /\ (Some (GameMove.playerID m) = TicTacToeGameState.x (Game.state g)
          <-> Nat.even (length (TicTacToeGameState.moves (Game.state g)))
              = true).
Proof.
  unfold applyMove, currentPlayerPiece.
  rewrite mod2_even, <- id_is_Some, <- GameStatus_eqb_eq.
  destruct (GameStatus_eqb _ IN_PROGRESS); simpl;
    [|split; [discriminate | intros (H & _); discriminate]].
  destruct (id_is _ _), (Nat.even _); simpl;
    try (split; [discriminate | intros (_ & _ & H); intuition discriminate]).
  - destruct (_isPositionOccupied g _ _); simpl;
      [split; [discriminate | intros (_ & H & _); discriminate]|].
    repeat break_if; simpl; intuition.
  - destruct (_isPositionOccupied g _ _); simpl;
      [split; [discriminate | intros (_ & H & _); discriminate]|].
    repeat break_if; simpl; intuition.
Qed.

(** X3: a successful [applyMove] changes neither the identifier, nor
    the players, nor the X and O players, nor the move log; it leaves
    the game as it was or sets its status to OVER. *)
Theorem applyMove_frame (g g' : Game.t) (m : GameMove.t) :
  applyMove g m = Normal g' ->
  Game.id g' = Game.id g
  /\ Game._players g' = Game._players g
  /\ TicTacToeGameState.x (Game.state g') = TicTacToeGameState.x (Game.state g)
  /\ TicTacToeGameState.o (Game.state g') = TicTacToeGameState.o (Game.state g)
  /\ TicTacToeGameState.moves (Game.state g')
     = TicTacToeGameState.moves (Game.state g)
  /\ (g' = g \/ TicTacToeGameState.status (Game.state g') = OVER).
Proof.
  unfold applyMove. intros H.
  repeat break_if; try discriminate; inversion H; subst; simpl; auto 10.
Qed.

(** X4: a successful [applyMove] at a cell of the grid never sets a
    winner: it leaves the game as it was, or, on a log of nine moves,
    ends it as a tie. *)
Theorem applyMove_on_grid_never_wins (g g' : Game.t) (m : GameMove.t) :
  (0 <= TicTacToeMove.row (GameMove.move m) <= 2)%Z ->
  (0 <= TicTacToeMove.col (GameMove.move m) <= 2)%Z ->
  applyMove g m = Normal g' ->
  g' = g
  \/ (length (TicTacToeGameState.moves (Game.state g)) = 9
      /\ g' = with_state g (set_winner (set_status (Game.state g) OVER) None)).
Proof.
  intros Hr Hc H.
  destruct (applyMove_Normal _ _ _ H) as (_ & Hfree & _).
  unfold applyMove in H.
  rewrite (_checkForWin_free_cell _ _ _ _ Hr Hc Hfree) in H.
  destruct (Nat.eqb_spec (length (TicTacToeGameState.moves (Game.state g))) 9)
    as [E|E];
    repeat break_if; try discriminate; inversion H; subst; auto.
Qed.

(** A successful [_join] was made by a player whose identifier no
    player of the game has, on a game of fewer than two players. *)
Lemma _join_Normal (g g' : Game.t) (p : Player.t) :
  _join g p = Normal g' ->
  existsb (fun q => String.eqb (Player.id q) (Player.id p)) (Game._players g)
  = false
  /\ length (Game._players g) < 2
  /\ Game._players g' = Game._players g
  /\ Game.id g' = Game.id g.
Proof.
  unfold _join. intros H.
  destruct (existsb _ (Game._players g)); [discriminate|].
  destruct (Nat.leb_spec 2 (length (Game._players g))); [discriminate|].
  repeat break_if; inversion H; subst; simpl; auto.
Qed.

Lemma filter_other_ids (l : list Player.t) (p : Player.t) :
  existsb (fun q => String.eqb (Player.id q) (Player.id p)) l = false ->
  filter (fun q => negb (String.eqb (Player.id q) (Player.id p))) l = l.
Proof.
  induction l as [|a l IH]; simpl; [reflexivity|].
  intros H. apply orb_false_iff in H as [Ha Hl].
  rewrite Ha, (IH Hl). reflexivity.
Qed.

Lemma filter_no_id (l : list Player.t) (p : Player.t) :
  existsb (fun q => String.eqb (Player.id q) (Player.id p))
    (filter (fun q => negb (String.eqb (Player.id q) (Player.id p))) l)
  = false.
Proof.
  induction l as [|a l IH]; simpl; [reflexivity|].
  destruct (String.eqb (Player.id a) (Player.id p)) eqn:Ha; simpl; [exact IH|].
  rewrite Ha, IH. reflexivity.
Qed.

(** The players, the move log, the X and O players and the status a
    successful public [join] leaves. *)
Lemma join_Normal (g g' : Game.t) (p : Player.t) :
  join g p = Normal g' ->
  Game._players g' = Game._players g ++ [p]
  /\ TicTacToeGameState.moves (Game.state g')
     = TicTacToeGameState.moves (Game.state g)
  /\ match Game._players g with
     | [] =>
         TicTacToeGameState.x (Game.state g') = Some (Player.id p)
         /\ TicTacToeGameState.status (Game.state g')
            = TicTacToeGameState.status (Game.state g)
     | _ =>
         TicTacToeGameState.x (Game.state g')
         = TicTacToeGameState.x (Game.state g)
         /\ TicTacToeGameState.o (Game.state g') = Some (Player.id p)
         /\ TicTacToeGameState.status (Game.state g') = IN_PROGRESS
     end.
Proof.
  intros H. unfold join in H.
  destruct (_join g p) as [g0|e] eqn:Hj; [|discriminate].
  inversion H; subst g'; clear H. simpl.
  destruct (_join_Normal _ _ _ Hj) as (_ & Hlt & Hps & _).
  rewrite Hps. split; [reflexivity|].
  unfold _join in Hj. destruct (existsb _ (Game._players g)); [discriminate|].
  destruct (Game._players g) as [|a [|b l]]; simpl in *; try lia;
    inversion Hj; subst g0; simpl; auto.
Qed.

(** X5: a successful [join] appends the joiner to the players and keeps
    the identifier, the move log and the winner; on a game without
    players it sets the X player and keeps the O player and the status,
    whatever it is; otherwise it keeps the X player, sets the O player
    and starts the game. *)
Theorem join_effect (g g' : Game.t) (p : Player.t) :
  join g p = Normal g' ->
  Game._players g' = Game._players g ++ [p]
  /\ Game.id g' = Game.id g
  /\ TicTacToeGameState.moves (Game.state g')
     = TicTacToeGameState.moves (Game.state g)
  /\ TicTacToeGameState.winner (Game.state g')
     = TicTacToeGameState.winner (Game.state g)
  /\ (Game._players g = [] ->
      TicTacToeGameState.x (Game.state g') = Some (Player.id p)
      /\ TicTacToeGameState.o (Game.state g')
         = TicTacToeGameState.o (Game.state g)
      /\ TicTacToeGameState.status (Game.state g')
         = TicTacToeGameState.status (Game.state g))
  /\ (Game._players g <> [] ->
      TicTacToeGameState.x (Game.state g')
      = TicTacToeGameState.x (Game.state g)
      /\ TicTacToeGameState.o (Game.state g') = Some (Player.id p)
      /\ TicTacToeGameState.status (Game.state g') = IN_PROGRESS).
Proof.
  unfold join, _join. intros H.
  destruct (existsb _ (Game._players g)); [discriminate|].
  destruct (Game._players g) as [|a [|b l]] eqn:Hps; simpl in H;
    inversion H; subst; simpl; rewrite ?Hps;
    repeat split; congruence.
Qed.

(** X6: after a successful [join], a second [join] of the same player
    throws with PLAYER_ALREADY_IN_GAME_MESSAGE. *)
Theorem join_twice_rejected (g g' : Game.t) (p : Player.t) :
  join g p = Normal g' ->
  join g' p = Throw (InvalidParametersError PLAYER_ALREADY_IN_GAME_MESSAGE).
Proof.
  intros H. unfold join in H.
  destruct (_join g p) as [g1|e] eqn:Hj; [|discriminate].
  inversion H; subst g'; clear H.
  unfold join, _join. simpl.
  rewrite existsb_app. simpl. rewrite String.eqb_refl, orb_true_r.
  reflexivity.
Qed.

(** X7: after two successful [join]s every further [join] throws: with
    PLAYER_ALREADY_IN_GAME_MESSAGE for a player whose identifier one of
    the players has, with GAME_FULL_MESSAGE for any other. *)
Theorem join_third_rejected (g g1 g2 : Game.t) (p1 p2 p3 : Player.t) :
  join g p1 = Normal g1 ->
  join g1 p2 = Normal g2 ->
  join g2 p3
  = Throw (InvalidParametersError
             (if existsb (fun q => String.eqb (Player.id q) (Player.id p3))
                   (Game._players g2)
              then PLAYER_ALREADY_IN_GAME_MESSAGE
              else GAME_FULL_MESSAGE)).
Proof.
  intros H1 H2.
  assert (Hlen : 2 <= length (Game._players g2)).
  { unfold join in H1, H2.
    destruct (_join g p1) as [a|] eqn:Ha; [|discriminate].
    destruct (_join g1 p2) as [b|] eqn:Hb; [|discriminate].
    inversion H1; subst g1. inversion H2; subst g2. simpl in *.
    destruct (_join_Normal _ _ _ Hb) as (_ & _ & Hps & _). simpl in Hps.
    rewrite Hps, !length_app. simpl. lia. }
  unfold join, _join.
  destruct (existsb _ (Game._players g2)); [reflexivity|].
  apply Nat.leb_le in Hlen. rewrite Hlen. reflexivity.
Qed.

(** X8: a [join] followed by the [leave] of the same player succeeds and
    gives back the players, the identifier and the move log the game
    had before the join. *)
Theorem join_then_leave (g g1 : Game.t) (p : Player.t) :
  join g p = Normal g1 ->
  exists g2,
    leave g1 p = Normal g2
    /\ Game._players g2 = Game._players g
    /\ Game.id g2 = Game.id g
    /\ TicTacToeGameState.moves (Game.state g2)
       = TicTacToeGameState.moves (Game.state g).
Proof.
  intros H. unfold join in H.
  destruct (_join g p) as [g0|e] eqn:Hj; [|discriminate].
  inversion H; subst g1; clear H.
  destruct (_join_Normal _ _ _ Hj) as (Hnot & _ & Hps & Hid).
  assert (Hmoves : TicTacToeGameState.moves (Game.state g0)
                   = TicTacToeGameState.moves (Game.state g)).
  { unfold _join in Hj.
    repeat break_if; try discriminate; inversion Hj; subst; reflexivity. }
  assert (Hfilter :
            filter (fun q => negb (String.eqb (Player.id q) (Player.id p)))
              (Game._players g0 ++ [p]) = Game._players g).
  { rewrite filter_app, Hps, (filter_other_ids _ _ Hnot). simpl.
    rewrite String.eqb_refl. simpl. apply app_nil_r. }
  pose proof (filter_other_ids _ _ Hnot) as Hsame.
  unfold leave, _leave. simpl.
  rewrite existsb_app. simpl. rewrite String.eqb_refl, orb_true_r. simpl.
  rewrite Hfilter.
  destruct (Game._players g) as [|a [|b l]];
    eexists; (split; [reflexivity|]); cbn [Game._players with_players
      with_state Game.id Game.state TicTacToeGameState.moves set_winner
      set_status];
    rewrite Hsame; auto.
Qed.

(** What a successful public [leave] leaves: the game [_leave] left,
    whose players already are the ones with another identifier. *)
Lemma leave_Normal (g g' : Game.t) (p : Player.t) :
  leave g p = Normal g' ->
  _leave g p = Normal g'
  /\ existsb (fun q => String.eqb (Player.id q) (Player.id p))
       (Game._players g) = true.
Proof.
  unfold leave. intros H.
  destruct (_leave g p) as [g1|e] eqn:Hl; [|discriminate].
  inversion H; subst g'; clear H.
  destruct (_leave_Normal _ _ _ Hl) as (_ & Hps & _).
  split.
  - f_equal. destruct g1 as [i s ps]. unfold with_players. simpl in *.
    rewrite Hps, filter_twice. reflexivity.
  - unfold _leave in Hl. destruct (existsb _ (Game._players g));
      [reflexivity|discriminate].
Qed.

(** X9: when a [leave] succeeds and one player remains, the status
    becomes OVER and the remaining player the winner, whatever the
    status and the move log were. *)
Theorem leave_forfeit (g g' : Game.t) (p q : Player.t) :
  leave g p = Normal g' ->
  Game._players g' = [q] ->
  TicTacToeGameState.status (Game.state g') = OVER
  /\ TicTacToeGameState.winner (Game.state g') = Some (Player.id q).
Proof.
  intros H Hq. apply leave_Normal in H as [H _].
  destruct (_leave_Normal _ _ _ H) as (_ & Hps & _).
  rewrite Hps in Hq. unfold _leave in H.
  break_if; [discriminate|].
  rewrite Hq in H. inversion H; subst g'. simpl. auto.
Qed.

(** X10: a [leave] succeeds only for a player whose identifier some
    player of the game has; it removes every player with that identifier
    and keeps the other players in order, the identifier, the move log
    and the X and O players, so the leaver stays recorded as X or O. *)
Theorem leave_frame (g g' : Game.t) (p : Player.t) :
  leave g p = Normal g' ->
  existsb (fun q => String.eqb (Player.id q) (Player.id p)) (Game._players g)
  = true
  /\ Game._players g'
     = filter (fun q => negb (String.eqb (Player.id q) (Player.id p)))
         (Game._players g)
  /\ existsb (fun q => String.eqb (Player.id q) (Player.id p))
       (Game._players g') = false
  /\ Game.id g' = Game.id g
  /\ TicTacToeGameState.moves (Game.state g')
     = TicTacToeGameState.moves (Game.state g)
  /\ TicTacToeGameState.x (Game.state g') = TicTacToeGameState.x (Game.state g)
  /\ TicTacToeGameState.o (Game.state g') = TicTacToeGameState.o (Game.state g).
Proof.
  intros H. apply leave_Normal in H as [H Hin].
  destruct (_leave_Normal _ _ _ H) as (Hid & Hps & Hmoves).
  split; [exact Hin|]. split; [exact Hps|].
  split; [rewrite Hps; apply filter_no_id|].
  split; [exact Hid|]. split; [exact Hmoves|].
  unfold _leave in H. break_if; [discriminate|].
  destruct (filter _ (Game._players g)) as [|a [|b l]];
    inversion H; subst; simpl; auto.
Qed.

Lemma _leave_keeps_x (g g' : Game.t) (p : Player.t) :
  _leave g p = Normal g' ->
  TicTacToeGameState.x (Game.state g') = TicTacToeGameState.x (Game.state g).
Proof.
  unfold _leave. intros H. break_if; [discriminate|].
  destruct (filter _ (Game._players g)) as [|a [|b l]];
    inversion H; subst; reflexivity.
Qed.

(** Every game the public methods produce satisfies the invariant. *)
Lemma reachable_engine_invariant (g : Game.t) :
  reachable g -> engine_invariant g.
Proof.
  induction 1 as [nid | g g' p Hr IH Hj | g g' p Hr IH Hl | g g' m Hr IH Hm].
  - unfold engine_invariant. simpl.
    repeat split; [constructor | congruence | lia].
  - destruct (join_Normal _ _ _ Hj) as (Hps & Hmv & Hcase).
    unfold join in Hj.
    destruct (_join g p) as [g0|] eqn:Hj0; [|discriminate].
    destruct (_join_Normal _ _ _ Hj0) as (Hnot & Hlt & _).
    destruct IH as (IHm & IHnd & IHx & IHs).
    unfold engine_invariant. rewrite Hmv, Hps.
    split; [exact IHm|].
    destruct (Game._players g) as [|a [|b l]] eqn:Hg; simpl in *; try lia.
    + destruct Hcase as (Hx' & Hs'). rewrite Hx', Hs'.
      split; [repeat constructor; simpl; tauto|].
      split; [congruence|].
      destruct (TicTacToeGameState.status (Game.state g));
        [lia | lia | destruct IHs as (q & Hq & _); discriminate].
    + destruct Hcase as (Hx' & Ho' & Hs').
      rewrite Hx', Ho', Hs'.
      rewrite orb_false_r in Hnot. apply String.eqb_neq in Hnot.
      split; [repeat constructor; simpl; intuition|].
      split; [intros _; apply IHx; discriminate|].
      split; [reflexivity | discriminate].
  - apply leave_Normal in Hl as [Hl Hin].
    destruct (_leave_Normal _ _ _ Hl) as (_ & Hps & Hmv).
    pose proof (_leave_keeps_x _ _ _ Hl) as Hx.
    destruct IH as (IHm & IHnd & IHx & IHs).
    unfold engine_invariant. rewrite Hmv, Hx.
    split; [exact IHm|].
    unfold _leave in Hl. rewrite Hin in Hl. simpl in Hl.
    rewrite <- Hps in Hl.
    assert (Hshort : length (Game._players g) <= 2).
    { destruct (TicTacToeGameState.status (Game.state g));
        [lia | lia | destruct IHs as (q & -> & _); simpl; lia]. }
    destruct (Game._players g) as [|a [|b [|c l]]] eqn:Hg; simpl in *;
      try lia; try discriminate.
    + rewrite orb_false_r in Hin. rewrite Hin in Hps. simpl in Hps.
      rewrite Hps in *. inversion Hl; subst g'. simpl.
      repeat split; [constructor | congruence | lia].
    + inversion IHnd as [|? ? Hnotin _]; subst. simpl in Hnotin.
      destruct (String.eqb_spec (Player.id a) (Player.id p)) as [Ea|Ea];
        destruct (String.eqb_spec (Player.id b) (Player.id p)) as [Eb|Eb];
        simpl in *; try discriminate;
        try (exfalso; apply Hnotin; left; congruence);
        rewrite Hps in *; inversion Hl; subst g'; simpl;
        (split; [repeat constructor; simpl; tauto|]);
        (split; [intros _; apply IHx; discriminate|]);
        eexists; split; reflexivity.
  - destruct IH as (IHm & IHrest).
    apply (applyMove_empty_log _ _ _ IHm) in Hm. subst g'.
    split; assumption.
Qed.

(** X11: in every game that [join], [leave] and [applyMove] produce
    from a new game, the move log is empty and the players have distinct
    identifiers; the game is IN_PROGRESS exactly when it has two
    players, and when it is OVER it has one player, who is the winner. *)
Theorem reachable_games (g : Game.t) :
  reachable g ->
  TicTacToeGameState.moves (Game.state g) = []
  /\ NoDup (map Player.id (Game._players g))
  /\ length (Game._players g) <= 2
  /\ (TicTacToeGameState.status (Game.state g) = IN_PROGRESS
      <-> length (Game._players g) = 2)
  /\ (TicTacToeGameState.status (Game.state g) = OVER ->
      exists q,
        Game._players g = [q]
        /\ TicTacToeGameState.winner (Game.state g) = Some (Player.id q)).
Proof.
  intros Hr. destruct (reachable_engine_invariant g Hr) as (Hm & Hnd & _ & Hs).
  split; [exact Hm|]. split; [exact Hnd|].
  destruct (TicTacToeGameState.status (Game.state g)).
  - destruct Hs as [Hlen _]. repeat split; try lia; try discriminate.
  - repeat split; try lia; try discriminate.
  - destruct Hs as (q & Hq & Hw). rewrite Hq. simpl.
    repeat split; try lia; try discriminate. intros _. eauto.
Qed.

(** X12: in every game that [join], [leave] and [applyMove] produce
    from a new game, a move that [applyMove] accepts is a move of the X
    player and leaves the game exactly as it was. *)
Theorem reachable_moves_change_nothing (g g' : Game.t) (m : GameMove.t) :
  reachable g ->
  applyMove g m = Normal g' ->
  Some (GameMove.playerID m) = TicTacToeGameState.x (Game.state g)
  /\ g' = g.
Proof.
  intros Hr Hm.
  destruct (reachable_engine_invariant g Hr) as (Hlog & _).
  split; [|exact (applyMove_empty_log _ _ _ Hlog Hm)].
  apply id_is_Some. unfold applyMove, currentPlayerPiece in Hm.
  rewrite Hlog in Hm. simpl in Hm.
  destruct (id_is (GameMove.playerID m) _); [reflexivity|].
  simpl in Hm. repeat break_if; discriminate.
Qed.

(** ** Further properties of the dispatcher *)

(** A [join] on a newly constructed game does not throw. *)
Lemma join_new_Normal (nid : GameInstanceID) (p : Player.t) :
  exists g1, join (new_TicTacToeGame nid) p = Normal g1
             /\ g1 = Game.mk nid
                       (TicTacToeGameState.mk [] (Some (Player.id p)) None
                          None WAITING_TO_START)
                       [p].
Proof. eexists. split; reflexivity. Qed.

Lemma set_game_same (a : Area.t) (g : Game.t) :
  Area._game a = Some g -> set_game a (Some g) = a.
Proof. destruct a as [og h n]. simpl. intros ->. reflexivity. Qed.

(** X13: a command that throws leaves the area exactly as it was: the
    active game, the history and the emitted changes. *)
Theorem handleCommand_throw_leaves_area (a : Area.t)
    (command : InteractableCommand) (player : Player.t)
    (nid : GameInstanceID) :
  is_normal (snd (handleCommand a command player nid)) = false ->
  fst (handleCommand a command player nid) = a.
Proof.
  unfold handleCommand. destruct command as [| gid mv | gid | ty]; simpl.
  - destruct (Area._game a) as [g|] eqn:Hg.
    + destruct (GameStatus_eqb _ OVER).
      * destruct (join_new_Normal nid player) as (g1 & -> & _).
        simpl. discriminate.
      * destruct (join g player); simpl; [discriminate|].
        intros _. apply set_game_same. exact Hg.
    + destruct (join_new_Normal nid player) as (g1 & -> & _).
      simpl. discriminate.
  - destruct (Area._game a) as [g|]; simpl; [|reflexivity].
    break_if; simpl; [reflexivity|].
    destruct (applyMove _ _); simpl; [discriminate|reflexivity].
  - destruct (Area._game a) as [g|]; simpl; [|reflexivity].
    break_if; simpl; [reflexivity|].
    destruct (leave _ _); simpl; [discriminate|reflexivity].
  - reflexivity.
Qed.

(** X14: the messages [handleCommand] throws with, by command: a
    JoinGame throws only with the already-in-game or the game-full
    constant; a GameMove only with the game-not-in-progress constant or
    the two quoted names of the engine for turn and position; a
    LeaveGame only with the game-not-in-progress or the not-in-game
    constant; any other command with the invalid-command constant. *)
Theorem handleCommand_messages (a : Area.t) (command : InteractableCommand)
    (player : Player.t) (nid : GameInstanceID) (e : Error) :
  snd (handleCommand a command player nid) = Throw e ->
  match command with
  | JoinGameCommand =>
      message e = PLAYER_ALREADY_IN_GAME_MESSAGE
      \/ message e = GAME_FULL_MESSAGE
  | GameMoveCommand _ _ =>
      message e = GAME_NOT_IN_PROGRESS_MESSAGE
      \/ message e = "MOVE_NOT_YOUR_TURN_MESSAGE"
      \/ message e = "BOARD_POSITION_NOT_EMPTY_MESSAGE"
  | LeaveGameCommand _ =>
      message e = GAME_NOT_IN_PROGRESS_MESSAGE
      \/ message e = PLAYER_NOT_IN_GAME_MESSAGE
  | OtherCommand _ => message e = INVALID_COMMAND_MESSAGE
  end.
Proof.
  unfold handleCommand. destruct command as [| gid mv | gid | ty]; simpl.
  - match goal with
    | |- context [join ?t player] => generalize t; intros g0
    end.
    unfold join, _join.
    repeat break_if; simpl; intros H; inversion H; subst; simpl; auto.
  - destruct (Area._game a) as [g|]; simpl;
      [|intros H; inversion H; auto].
    destruct (GameStatus_eqb _ IN_PROGRESS) eqn:Hs; simpl;
      [|intros H; inversion H; auto].
    unfold applyMove. rewrite Hs. simpl.
    repeat break_if; simpl; intros H; inversion H; subst; simpl; auto.
  - destruct (Area._game a) as [g|]; simpl;
      [|intros H; inversion H; auto].
    destruct (GameStatus_eqb _ IN_PROGRESS) eqn:Hs; simpl;
      [|intros H; inversion H; auto].
    unfold leave, _leave.
    destruct (existsb _ (Game._players g)); simpl.
    + destruct (filter _ (Game._players g)) as [|q [|q' l]]; simpl;
        intros H; discriminate.
    + intros H; inversion H; auto.
  - intros H; inversion H; auto.
Qed.

(** X15: a JoinGame command that completes normally joins the active
    game when there is one that is not OVER, and otherwise a newly
    constructed game with the drawn identifier; it returns the
    identifier of the game joined, leaves the history as it was, and
    emits a change only if the game joined is then IN_PROGRESS. *)
Theorem handleCommand_join_result (a : Area.t) (player : Player.t)
    (nid : GameInstanceID) (r : CommandReturn) :
  snd (handleCommand a JoinGameCommand player nid) = Normal r ->
  let a' := fst (handleCommand a JoinGameCommand player nid) in
  exists g1,
    Area._game a' = Some g1
    /\ r = ReturnGameID (Game.id g1)
    /\ Area._history a' = Area._history a
    /\ Area.emitted a'
       = (if GameStatus_eqb (TicTacToeGameState.status (Game.state g1))
               IN_PROGRESS
          then S (Area.emitted a) else Area.emitted a)
    /\ ((exists g,
            Area._game a = Some g
            /\ TicTacToeGameState.status (Game.state g) <> OVER
            /\ join g player = Normal g1)
        \/ ((Area._game a = None
             \/ exists g,
                 Area._game a = Some g
                 /\ TicTacToeGameState.status (Game.state g) = OVER)
            /\ join (new_TicTacToeGame nid) player = Normal g1
            /\ Game.id g1 = nid)).
Proof.
  cbv zeta. unfold handleCommand.
  destruct (Area._game a) as [g|] eqn:Hg.
  - destruct (GameStatus_eqb _ OVER) eqn:Hs.
    + apply GameStatus_eqb_eq in Hs.
      destruct (join_new_Normal nid player) as (g1 & Hj & Hg1).
      rewrite Hj. simpl. intros H; inversion H; subst r; clear H.
      exists g1. subst g1. simpl.
      do 4 (split; [reflexivity|]). right.
      split; [right; eauto|]. split; reflexivity.
    + assert (Hne : TicTacToeGameState.status (Game.state g) <> OVER).
      { intros E. apply GameStatus_eqb_eq in E. congruence. }
      destruct (join g player) as [g1|e] eqn:Hj; simpl; [|discriminate].
      intros H; inversion H; subst r; clear H.
      exists g1.
      destruct (GameStatus_eqb (TicTacToeGameState.status (Game.state g1))
                  IN_PROGRESS) eqn:Hip; simpl; rewrite ?Hip;
        do 4 (split; [reflexivity|]); left; eauto.
  - destruct (join_new_Normal nid player) as (g1 & Hj & Hg1).
    rewrite Hj. simpl. intros H; inversion H; subst r; clear H.
    exists g1. subst g1. simpl.
    do 4 (split; [reflexivity|]). right.
    split; [left; reflexivity|]. split; reflexivity.
Qed.

(** X16: a player who joins in an area without a game is alone in a game
    that is WAITING_TO_START, and can then neither leave nor move: both
    commands throw with GAME_NOT_IN_PROGRESS_MESSAGE. *)
Theorem lone_joiner_cannot_leave (a : Area.t) (player : Player.t)
    (nid nid' gid : GameInstanceID) :
  Area._game a = None ->
  let a1 := fst (handleCommand a JoinGameCommand player nid) in
  snd (handleCommand a JoinGameCommand player nid)
  = Normal (ReturnGameID nid)
  /\ handleCommand a1 (LeaveGameCommand gid) player nid'
     = (a1, Throw (InvalidParametersError GAME_NOT_IN_PROGRESS_MESSAGE))
  /\ forall mv,
      handleCommand a1 (GameMoveCommand gid mv) player nid'
      = (a1, Throw (InvalidParametersError GAME_NOT_IN_PROGRESS_MESSAGE)).
Proof.
  intros Hnone. cbv zeta. unfold handleCommand. rewrite Hnone. simpl.
  repeat split.
Qed.

(** One call appends at most one record and emits at most one change. *)
Lemma handleCommand_grows (a : Area.t) (command : InteractableCommand)
    (player : Player.t) (nid : GameInstanceID) :
  let a' := fst (handleCommand a command player nid) in
  (exists l, Area._history a' = Area._history a ++ l /\ length l <= 1)
  /\ Area.emitted a <= Area.emitted a' <= S (Area.emitted a).
Proof.
  cbv zeta. unfold handleCommand.
  assert (Hnil : exists l : list GameResult.t,
             Area._history a = Area._history a ++ l /\ length l <= 1).
  { exists []. rewrite app_nil_r. simpl. auto. }
  destruct command as [| gid mv | gid | ty]; simpl.
  - destruct (join _ player); simpl; [|auto].
    break_if; simpl; auto.
  - destruct (Area._game a) as [g|]; simpl; [|auto].
    break_if; simpl; [auto|].
    destruct (applyMove _ _); simpl; [|auto].
    break_if; simpl; [|auto]. split; [eexists; split; [reflexivity|]|];
      simpl; lia.
  - destruct (Area._game a) as [g|]; simpl; [|auto].
    break_if; simpl; [auto|].
    destruct (leave _ _); simpl; [|auto].
    break_if; simpl; [|auto]. split; [eexists; split; [reflexivity|]|];
      simpl; lia.
  - auto.
Qed.

(** X17: over a run of commands the history only grows at its end, by
    at most one record a command, and at most one change is emitted a
    command. *)
Theorem handleCommands_history_grows
    (cs : list (InteractableCommand * Player.t * GameInstanceID))
    (a : Area.t) :
  (exists l,
      Area._history (handleCommands a cs) = Area._history a ++ l
      /\ length l <= length cs)
  /\ Area.emitted a <= Area.emitted (handleCommands a cs)
     <= Area.emitted a + length cs.
Proof.
  unfold handleCommands. revert a.
  induction cs as [|c cs IH]; intros a; simpl.
  - split; [exists []; rewrite app_nil_r; auto | lia].
  - destruct (handleCommand_grows a (fst (fst c)) (snd (fst c)) (snd c))
      as ((l1 & Hl1 & Hn1) & He1).
    destruct (IH (fst (handleCommand a (fst (fst c)) (snd (fst c)) (snd c))))
      as ((l2 & Hl2 & Hn2) & He2).
    split.
    + exists (l1 ++ l2). rewrite Hl2, Hl1, <- app_assoc, length_app.
      split; [reflexivity | lia].
    + lia.
Qed.

(** One call keeps the invariant of the area. *)
Lemma area_invariant_step (a : Area.t) (command : InteractableCommand)
    (player : Player.t) (nid : GameInstanceID) :
  area_invariant a ->
  area_invariant (fst (handleCommand a command player nid)).
Proof.
  unfold area_invariant, handleCommand. intros Ha.
  assert (Hover : forall s, GameStatus_eqb s OVER = false -> s <> OVER).
  { intros s E1 E2. apply GameStatus_eqb_eq in E2. congruence. }
  destruct command as [| gid mv | gid | ty]; simpl.
  - assert (H0 : exists g0,
               match Area._game a with
               | Some g =>
                   if GameStatus_eqb (TicTacToeGameState.status (Game.state g))
                        OVER
                   then new_TicTacToeGame nid else g
               | None => new_TicTacToeGame nid
               end = g0
               /\ reachable g0
               /\ TicTacToeGameState.status (Game.state g0) <> OVER).
    { eexists. split; [reflexivity|].
      destruct (Area._game a) as [g|].
      - destruct (GameStatus_eqb _ OVER); [|exact Ha].
        split; [constructor | discriminate].
      - split; [constructor | discriminate]. }
    destruct H0 as (g0 & -> & Hr0 & Hs0).
    destruct (join g0 player) as [g1|e] eqn:Hj; simpl; [|auto].
    assert (Hg1 : reachable g1
                  /\ TicTacToeGameState.status (Game.state g1) <> OVER).
    { split; [exact (reachable_join _ _ _ Hr0 Hj)|].
      destruct (join_Normal _ _ _ Hj) as (_ & _ & Hcase).
      destruct (Game._players g0).
      - destruct Hcase as (_ & ->). exact Hs0.
      - destruct Hcase as (_ & _ & ->). discriminate. }
    break_if; simpl; exact Hg1.
  - destruct (Area._game a) as [g|] eqn:Hg; simpl; [|rewrite Hg; exact I].
    break_if; simpl; [rewrite Hg; exact Ha|].
    destruct (applyMove _ _) as [g1|e] eqn:Hm; simpl;
      [|rewrite Hg; exact Ha].
    destruct (GameStatus_eqb _ OVER) eqn:Hs; simpl; [exact I|].
    split; [exact (reachable_applyMove _ _ _ (proj1 Ha) Hm) | auto].
  - destruct (Area._game a) as [g|] eqn:Hg; simpl; [|rewrite Hg; exact I].
    break_if; simpl; [rewrite Hg; exact Ha|].
    destruct (leave _ _) as [g1|e] eqn:Hl; simpl;
      [|rewrite Hg; exact Ha].
    destruct (GameStatus_eqb _ OVER) eqn:Hs; simpl; [exact I|].
    split; [exact (reachable_leave _ _ _ (proj1 Ha) Hl) | auto].
  - exact Ha.
Qed.

(** A run of commands keeps the invariant of the area. *)
Lemma area_invariant_run
    (cs : list (InteractableCommand * Player.t * GameInstanceID))
    (a : Area.t) :
  area_invariant a -> area_invariant (handleCommands a cs).
Proof.
  unfold handleCommands. revert a.
  induction cs as [|c cs IH]; intros a Ha; simpl; [exact Ha|].
  apply IH, area_invariant_step, Ha.
Qed.

(** X18: after any run of commands from an area without a game, the
    active game, if there is one, is not OVER, its move log is empty,
    and it is IN_PROGRESS exactly when it has two players. *)
Theorem handleCommands_active_game
    (cs : list (InteractableCommand * Player.t * GameInstanceID))
    (a : Area.t) (g : Game.t) :
  Area._game a = None ->
  Area._game (handleCommands a cs) = Some g ->
  TicTacToeGameState.status (Game.state g) <> OVER
  /\ TicTacToeGameState.moves (Game.state g) = []
  /\ (TicTacToeGameState.status (Game.state g) = IN_PROGRESS
      <-> length (Game._players g) = 2).
Proof.
  intros Hnone Hg.
  assert (Ha : area_invariant a) by (unfold area_invariant; rewrite Hnone; exact I).
  pose proof (area_invariant_run cs a Ha) as Hrun.
  unfold area_invariant in Hrun. rewrite Hg in Hrun.
  destruct Hrun as [Hr Hs]. split; [exact Hs|].
  destruct (reachable_engine_invariant g Hr) as (Hm & _ & _ & Hst).
  split; [exact Hm|].
  destruct (TicTacToeGameState.status (Game.state g)).
  - destruct Hst as [Hlen _]. tauto.
  - split; [discriminate | lia].
  - congruence.
Qed.

(** X19: after any run of commands from an area without a game, a
    GameMove command that completes normally only emits a change: the
    active game and the history stay exactly as they were. *)
Theorem handleCommands_move_changes_nothing
    (cs : list (InteractableCommand * Player.t * GameInstanceID))
    (a : Area.t) (gid nid : GameInstanceID) (mv : TicTacToeMove.t)
    (player : Player.t) :
  Area._game a = None ->
  let a' := handleCommands a cs in
  is_normal (snd (handleCommand a' (GameMoveCommand gid mv) player nid))
  = true ->
  fst (handleCommand a' (GameMoveCommand gid mv) player nid)
  = _emitAreaChanged a'.
Proof.
  intros Hnone. cbv zeta.
  assert (Ha : area_invariant a) by (unfold area_invariant; rewrite Hnone; exact I).
  pose proof (area_invariant_run cs a Ha) as Hrun.
  generalize dependent (handleCommands a cs). intros a' Hrun.
  unfold area_invariant in Hrun. unfold handleCommand.
  destruct (Area._game a') as [g|] eqn:Hg; simpl; [|discriminate].
  destruct Hrun as [Hr Hs].
  destruct (GameStatus_eqb _ IN_PROGRESS) eqn:Hip; simpl; [|discriminate].
  destruct (applyMove g _) as [g1|e] eqn:Hm; simpl; [|discriminate].
  intros _.
  destruct (reachable_engine_invariant g Hr) as (Hlog & _).
  apply (applyMove_empty_log _ _ _ Hlog) in Hm. subst g1.
  apply GameStatus_eqb_eq in Hip. rewrite Hip. simpl.
  rewrite (set_game_same _ _ Hg). reflexivity.
Qed.

(** X20: the guards of [applyMove] in their order: a move on a game
    that is not in progress throws with the quoted name
    GAME_NOT_IN_PROGRESS_MESSAGE whatever the turn and the position; on
    a game in progress an out-of-turn move throws with
    MOVE_NOT_YOUR_TURN_MESSAGE whatever the position; only an in-turn
    move on an occupied position, whatever piece is there, throws with
    BOARD_POSITION_NOT_EMPTY_MESSAGE. *)
Theorem applyMove_throws (g : Game.t) (m : GameMove.t) (e : Error) :
  applyMove g m = Throw e ->
  let in_turn :=
    Bool.eqb (id_is (GameMove.playerID m)
                (TicTacToeGameState.x (Game.state g)))
      (Nat.even (length (TicTacToeGameState.moves (Game.state g)))) in
  (TicTacToeGameState.status (Game.state g) <> IN_PROGRESS
   /\ message e = "GAME_NOT_IN_PROGRESS_MESSAGE")
  \/ (TicTacToeGameState.status (Game.state g) = IN_PROGRESS
      /\ in_turn = false
      /\ message e = "MOVE_NOT_YOUR_TURN_MESSAGE")
  \/ (TicTacToeGameState.status (Game.state g) = IN_PROGRESS
      /\ in_turn = true
      /\ (exists move,
             In move (TicTacToeGameState.moves (Game.state g))
             /\ TicTacToeMove.row move
                = TicTacToeMove.row (GameMove.move m)
             /\ TicTacToeMove.col move
                = TicTacToeMove.col (GameMove.move m))
      /\ message e = "BOARD_POSITION_NOT_EMPTY_MESSAGE").
Proof.
  cbv zeta. unfold applyMove, currentPlayerPiece, _isPositionOccupied.
  rewrite mod2_even.
  destruct (GameStatus_eqb _ IN_PROGRESS) eqn:Hs; simpl.
  - apply GameStatus_eqb_eq in Hs.
    destruct (id_is _ _), (Nat.even _); simpl; intros H;
      try (inversion H; subst e; right; left; auto; fail);
      right; right;
      (destruct (existsb _ (TicTacToeGameState.moves (Game.state g)))
         eqn:Hocc; [|repeat break_if; discriminate]);
      inversion H; subst e;
      apply existsb_exists in Hocc as (move & Hin & Hrc);
      apply andb_true_iff in Hrc as [Hr Hc];
      apply Z.eqb_eq in Hr, Hc;
      (split; [exact Hs|]); (split; [reflexivity|]);
      (split; [exists move; auto | reflexivity]).
  - intros H. inversion H; subst e. left. split; [|reflexivity].
    intros E. apply GameStatus_eqb_eq in E. congruence.
Qed.

(** X21: a GameMove or LeaveGame command completes normally only on an
    active game in progress; it then returns the empty object, emits
    one change, and leaves as active game the game the engine call
    left, or none if that game is OVER. *)
Theorem handleCommand_move_leave_result (a : Area.t)
    (command : InteractableCommand) (player : Player.t)
    (nid : GameInstanceID) (r : CommandReturn) :
  command <> JoinGameCommand ->
  snd (handleCommand a command player nid) = Normal r ->
  let a' := fst (handleCommand a command player nid) in
  r = ReturnEmpty
  /\ Area.emitted a' = S (Area.emitted a)
  /\ exists g g',
      Area._game a = Some g
      /\ TicTacToeGameState.status (Game.state g) = IN_PROGRESS
      /\ delegates_to command player g g'
      /\ Area._game a'
         = (if GameStatus_eqb (TicTacToeGameState.status (Game.state g')) OVER
            then None else Some g').
Proof.
  cbv zeta. unfold handleCommand, delegates_to.
  destruct command as [| gid mv | gid | ty]; simpl; intros Hc;
    [congruence | | | discriminate].
  - destruct (Area._game a) as [g|]; simpl; [|discriminate].
    destruct (GameStatus_eqb _ IN_PROGRESS) eqn:Hs; simpl; [|discriminate].
    apply GameStatus_eqb_eq in Hs.
    destruct (applyMove g _) as [g1|e] eqn:Hm; simpl; [|discriminate].
    intros H; inversion H; subst r.
    split; [reflexivity|].
    split; [destruct (GameStatus_eqb _ OVER); reflexivity|].
    exists g, g1. split; [reflexivity|]. split; [exact Hs|].
    split; [left; eauto|].
    destruct (GameStatus_eqb _ OVER); reflexivity.
  - destruct (Area._game a) as [g|]; simpl; [|discriminate].
    destruct (GameStatus_eqb _ IN_PROGRESS) eqn:Hs; simpl; [|discriminate].
    apply GameStatus_eqb_eq in Hs.
    destruct (leave g player) as [g1|e] eqn:Hl; simpl; [|discriminate].
    intros H; inversion H; subst r.
    split; [reflexivity|].
    split; [destruct (GameStatus_eqb _ OVER); reflexivity|].
    exists g, g1. split; [reflexivity|]. split; [exact Hs|].
    split; [right; eauto|].
    destruct (GameStatus_eqb _ OVER); reflexivity.
Qed.

(** On a game in progress that satisfies the invariant, the [leave] of a
    player whose identifier a player has succeeds and ends the game. *)
Lemma leave_in_progress (g : Game.t) (p : Player.t) :
  engine_invariant g ->
  TicTacToeGameState.status (Game.state g) = IN_PROGRESS ->
  existsb (fun q => String.eqb (Player.id q) (Player.id p)) (Game._players g)
  = true ->
  exists g1,
    leave g p = Normal g1
    /\ Game.id g1 = Game.id g
    /\ TicTacToeGameState.status (Game.state g1) = OVER.
Proof.
  intros (_ & Hnd & _ & Hst) Hs Hin. rewrite Hs in Hst.
  destruct Hst as [Hlen _].
  unfold leave, _leave. rewrite Hin. simpl.
  destruct (Game._players g) as [|a [|b [|c l]]]; simpl in *;
    try discriminate.
  inversion Hnd as [|? ? Hnotin _]; subst. simpl in Hnotin.
  destruct (String.eqb_spec (Player.id a) (Player.id p)) as [Ea|Ea];
    destruct (String.eqb_spec (Player.id b) (Player.id p)) as [Eb|Eb];
    simpl in *; try discriminate;
    try (exfalso; apply Hnotin; left; congruence);
    eexists; repeat split.
Qed.

(** X22: after any run of commands from an area without a game, a
    LeaveGame command on an active game in progress, by a player whose
    identifier a player of the game has, completes normally: it clears
    the active game, appends to the history the record of that game
    with the score 0 under the display name of the command's player,
    and emits one change. *)
Theorem leave_command_ends_game
    (cs : list (InteractableCommand * Player.t * GameInstanceID))
    (a : Area.t) (g : Game.t) (player : Player.t)
    (gid nid : GameInstanceID) :
  Area._game a = None ->
  let a' := handleCommands a cs in
  Area._game a' = Some g ->
  TicTacToeGameState.status (Game.state g) = IN_PROGRESS ->
  existsb (fun q => String.eqb (Player.id q) (Player.id player))
    (Game._players g) = true ->
  handleCommand a' (LeaveGameCommand gid) player nid
  = (Area.mk None
       (Area._history a'
          ++ [GameResult.mk (Game.id g) [(Player.userName player, 0%Z)]])
       (S (Area.emitted a')),
     Normal ReturnEmpty).
Proof.
  intros Hnone. cbv zeta.
  assert (Ha : area_invariant a) by (unfold area_invariant; rewrite Hnone; exact I).
  pose proof (area_invariant_run cs a Ha) as Hrun.
  generalize dependent (handleCommands a cs). intros a' Hrun Hg Hs Hin.
  unfold area_invariant in Hrun. rewrite Hg in Hrun. destruct Hrun as [Hr _].
  destruct (leave_in_progress g player (reachable_engine_invariant g Hr) Hs Hin)
    as (g1 & Hl & Hid & Hover).
  unfold handleCommand. rewrite Hg, Hs. simpl. rewrite Hl, Hover. simpl.
  rewrite Hid. reflexivity.
Qed.

End ImportedMessages.

(** ** Concrete runs *)

(** The concrete games are the ones the calls produce. *)
Lemma concrete_games_reached (full already not_in : string) :
  join full already (new_TicTacToeGame "game1") player1
  = Normal one_player_game
  /\ join full already one_player_game player2 = Normal two_player_game
  /\ leave not_in two_player_game player1 = Normal forfeited_game
  /\ leave not_in forfeited_game player2 = Normal abandoned_game
  /\ leave not_in one_player_game player1 = Normal vacated_game.
Proof. repeat split. Qed.

(** C5 (as stated): after both players joined and the first left, the
    leave of the second succeeds and no player remains, and the winner
    is still the second player. *)
Lemma leave_keeps_winner :
  leave SpecMessages.PLAYER_NOT_IN_GAME_MESSAGE forfeited_game player2
  = Normal abandoned_game
  /\ _leave SpecMessages.PLAYER_NOT_IN_GAME_MESSAGE forfeited_game player2
     = Normal abandoned_game
  /\ Game._players abandoned_game = []
  /\ TicTacToeGameState.status (Game.state abandoned_game) = WAITING_TO_START
  /\ TicTacToeGameState.winner (Game.state abandoned_game) = Some "player2"
  /\ TicTacToeGameState.winner (Game.state abandoned_game) <> None.
Proof. repeat split. discriminate. Qed.

(** The leave of the only player of a game: the status becomes
    WAITING_TO_START and the absent winner stays absent. *)
Lemma leave_last_player_witness :
  leave SpecMessages.PLAYER_NOT_IN_GAME_MESSAGE one_player_game player1
  = Normal vacated_game
  /\ Game._players vacated_game = []
  /\ TicTacToeGameState.status (Game.state vacated_game) = WAITING_TO_START
  /\ TicTacToeGameState.winner (Game.state vacated_game)
     = TicTacToeGameState.winner (Game.state one_player_game).
Proof.
  split; [reflexivity|]. split; [reflexivity|].
  apply (leave_last_player SpecMessages.PLAYER_NOT_IN_GAME_MESSAGE
           one_player_game vacated_game player1);
    [right; reflexivity | reflexivity].
Defined.

(** The joins of [player1] and then [player2] on a new game. *)
Lemma join_ordering_witness :
  Player.id player1 <> Player.id player2
  /\ exists g1 g2,
      join SpecMessages.GAME_FULL_MESSAGE
        SpecMessages.PLAYER_ALREADY_IN_GAME_MESSAGE
        (new_TicTacToeGame "game1") player1 = Normal g1
      /\ TicTacToeGameState.x (Game.state g1) = Some (Player.id player1)
      /\ TicTacToeGameState.o (Game.state g1) = None
      /\ TicTacToeGameState.status (Game.state g1) = WAITING_TO_START
      /\ join SpecMessages.GAME_FULL_MESSAGE
           SpecMessages.PLAYER_ALREADY_IN_GAME_MESSAGE g1 player2 = Normal g2
      /\ TicTacToeGameState.x (Game.state g2) = Some (Player.id player1)
      /\ TicTacToeGameState.o (Game.state g2) = Some (Player.id player2)
      /\ TicTacToeGameState.status (Game.state g2) = IN_PROGRESS.
Proof.
  split; [discriminate|].
  apply (join_ordering SpecMessages.GAME_FULL_MESSAGE
           SpecMessages.PLAYER_ALREADY_IN_GAME_MESSAGE "game1"
           player1 player2).
  discriminate.
Defined.

(** A move of [player3], who has not joined, after the first move of
    X: the piece is O and the move is accepted. *)
Lemma applyMove_accepts_non_occupant_witness :
  currentPlayerPiece (TicTacToeGameState.x (Game.state one_move_game))
    "player3" = O
  /\ exists g', applyMove one_move_game (moveOf player3 O 1 1) = Normal g'.
Proof.
  destruct (applyMove_accepts_non_occupant one_move_game
              (moveOf player3 O 1 1)) as [Hpiece Haccept];
    [discriminate | discriminate |].
  split; [exact Hpiece|].
  apply Haccept; reflexivity.
Defined.

(** With the message strings of the spec, the engine and the
    dispatcher raise the game-not-in-progress error with different
    messages. *)
Lemma GameNotInProgress_messages_differ_witness :
  SpecMessages.GAME_NOT_IN_PROGRESS_MESSAGE <> "GAME_NOT_IN_PROGRESS_MESSAGE"
  /\ exists e_engine e_dispatcher,
      applyMove (new_TicTacToeGame "game1") (moveOf player1 X 0 0)
      = Throw e_engine
      /\ snd (handleCommand SpecMessages.GAME_NOT_IN_PROGRESS_MESSAGE
                SpecMessages.INVALID_COMMAND_MESSAGE
                SpecMessages.GAME_FULL_MESSAGE
                SpecMessages.PLAYER_ALREADY_IN_GAME_MESSAGE
                SpecMessages.PLAYER_NOT_IN_GAME_MESSAGE
                empty_area
                (GameMoveCommand "game1" (TicTacToeMove.mk X 0 0))
                player1 "game1")
         = Throw e_dispatcher
      /\ message e_engine = "GAME_NOT_IN_PROGRESS_MESSAGE"
      /\ message e_dispatcher = SpecMessages.GAME_NOT_IN_PROGRESS_MESSAGE
      /\ message e_engine <> message e_dispatcher.
Proof.
  split; [discriminate|].
  apply (GameNotInProgress_messages_differ
           SpecMessages.GAME_NOT_IN_PROGRESS_MESSAGE
           SpecMessages.INVALID_COMMAND_MESSAGE
           SpecMessages.GAME_FULL_MESSAGE
           SpecMessages.PLAYER_ALREADY_IN_GAME_MESSAGE
           SpecMessages.PLAYER_NOT_IN_GAME_MESSAGE).
  discriminate.
Defined.

(** The LeaveGame command of [player1] in an area hosting the game
    both players joined: one record is appended and the game cleared. *)
Lemma history_records_ended_games_witness :
  let a' :=
    fst (handleCommand SpecMessages.GAME_NOT_IN_PROGRESS_MESSAGE
           SpecMessages.INVALID_COMMAND_MESSAGE
           SpecMessages.GAME_FULL_MESSAGE
           SpecMessages.PLAYER_ALREADY_IN_GAME_MESSAGE
           SpecMessages.PLAYER_NOT_IN_GAME_MESSAGE
           playing_area (LeaveGameCommand "game1") player1 "game2") in
  Area._history a' = [GameResult.mk "game1" [("Player One", 0%Z)]]
  /\ Area._game a' = None.
Proof.
  destruct (history_records_ended_games
              SpecMessages.GAME_NOT_IN_PROGRESS_MESSAGE
              SpecMessages.INVALID_COMMAND_MESSAGE
              SpecMessages.GAME_FULL_MESSAGE
              SpecMessages.PLAYER_ALREADY_IN_GAME_MESSAGE
              SpecMessages.PLAYER_NOT_IN_GAME_MESSAGE
              playing_area (LeaveGameCommand "game1") player1 "game2")
    as [Hended _].
  destruct (Hended two_player_game forfeited_game) as (Hh & Hg & _).
  - reflexivity.
  - reflexivity.
  - right. exists "game1". split; reflexivity.
  - reflexivity.
  - split; [exact Hh | exact Hg].
Defined.

(** ** Concrete runs of the further properties *)

Local Abbreviation GNIP := SpecMessages.GAME_NOT_IN_PROGRESS_MESSAGE.
Local Abbreviation INVALID := SpecMessages.INVALID_COMMAND_MESSAGE.
Local Abbreviation FULL := SpecMessages.GAME_FULL_MESSAGE.
Local Abbreviation ALREADY := SpecMessages.PLAYER_ALREADY_IN_GAME_MESSAGE.
Local Abbreviation NOT_IN := SpecMessages.PLAYER_NOT_IN_GAME_MESSAGE.

(** The second move, by a player other than X on a log of one move, is
    accepted and changes nothing of the game. *)
Lemma applyMove_frame_witness :
  applyMove one_move_game (moveOf player2 O 1 1) = Normal one_move_game
  /\ Game._players one_move_game = [player1; player2]
  /\ TicTacToeGameState.moves (Game.state one_move_game)
     = [TicTacToeMove.mk X 0 0].
Proof.
  destruct (applyMove_frame one_move_game one_move_game
              (moveOf player2 O 1 1) eq_refl)
    as (_ & Hplayers & _ & _ & Hmoves & _).
  split; [reflexivity|]. split; [exact Hplayers | exact Hmoves].
Defined.

(** The first move of X at the corner of the grid leaves the game as it
    was. *)
Lemma applyMove_on_grid_never_wins_witness :
  applyMove two_player_game (moveOf player1 X 0 0) = Normal two_player_game
  /\ (two_player_game = two_player_game
      \/ (length (TicTacToeGameState.moves (Game.state two_player_game)) = 9
          /\ two_player_game
             = with_state two_player_game
                 (set_winner (set_status (Game.state two_player_game) OVER)
                    None))).
Proof.
  split; [reflexivity|].
  apply (applyMove_on_grid_never_wins two_player_game two_player_game
           (moveOf player1 X 0 0)); simpl; [lia | lia | reflexivity].
Defined.

(** The join of the second player: appended, made the O player, and the
    game started. *)
Lemma join_effect_witness :
  join FULL ALREADY one_player_game player2 = Normal two_player_game
  /\ Game._players two_player_game = Game._players one_player_game ++ [player2]
  /\ TicTacToeGameState.o (Game.state two_player_game) = Some "player2"
  /\ TicTacToeGameState.status (Game.state two_player_game) = IN_PROGRESS.
Proof.
  destruct (join_effect FULL ALREADY one_player_game two_player_game player2
              eq_refl)
    as (Hps & _ & _ & _ & _ & Hsecond).
  destruct Hsecond as (_ & Ho & Hs); [discriminate|].
  repeat split; assumption.
Defined.

(** The first joiner joins again. *)
Lemma join_twice_rejected_witness :
  join FULL ALREADY (new_TicTacToeGame "game1") player1
  = Normal one_player_game
  /\ join FULL ALREADY one_player_game player1
     = Throw (InvalidParametersError ALREADY).
Proof.
  split; [reflexivity|].
  apply (join_twice_rejected FULL ALREADY (new_TicTacToeGame "game1")
           one_player_game player1).
  reflexivity.
Defined.

(** A third player joins the game two players have joined. *)
Lemma join_third_rejected_witness :
  join FULL ALREADY two_player_game player3
  = Throw (InvalidParametersError FULL).
Proof.
  apply (join_third_rejected FULL ALREADY (new_TicTacToeGame "game1")
           one_player_game two_player_game player1 player2 player3);
    reflexivity.
Defined.

(** The second player joins and leaves again. *)
Lemma join_then_leave_witness :
  exists g2,
    leave NOT_IN two_player_game player2 = Normal g2
    /\ Game._players g2 = Game._players one_player_game
    /\ Game.id g2 = Game.id one_player_game
    /\ TicTacToeGameState.moves (Game.state g2)
       = TicTacToeGameState.moves (Game.state one_player_game).
Proof.
  apply (join_then_leave FULL ALREADY NOT_IN one_player_game two_player_game
           player2).
  reflexivity.
Defined.

(** The first player leaves the game two players have joined. *)
Lemma leave_forfeit_witness :
  leave NOT_IN two_player_game player1 = Normal forfeited_game
  /\ TicTacToeGameState.status (Game.state forfeited_game) = OVER
  /\ TicTacToeGameState.winner (Game.state forfeited_game)
     = Some (Player.id player2).
Proof.
  split; [reflexivity|].
  apply (leave_forfeit NOT_IN two_player_game forfeited_game player1 player2);
    reflexivity.
Defined.

(** After the first player left, the player stays recorded as the X
    player. *)
Lemma leave_frame_witness :
  leave NOT_IN two_player_game player1 = Normal forfeited_game
  /\ Game._players forfeited_game = [player2]
  /\ TicTacToeGameState.x (Game.state forfeited_game) = Some "player1".
Proof.
  destruct (leave_frame NOT_IN two_player_game forfeited_game player1 eq_refl)
    as (_ & Hps & _ & _ & _ & Hx & _).
  split; [reflexivity|]. split; [exact Hps | exact Hx].
Defined.

(** The game two players have joined is produced by two joins. *)
Lemma reachable_games_witness :
  reachable FULL ALREADY NOT_IN two_player_game
  /\ TicTacToeGameState.moves (Game.state two_player_game) = []
  /\ length (Game._players two_player_game) <= 2.
Proof.
  assert (Hr : reachable FULL ALREADY NOT_IN two_player_game).
  { apply (reachable_join FULL ALREADY NOT_IN one_player_game two_player_game
             player2); [|reflexivity].
    apply (reachable_join FULL ALREADY NOT_IN (new_TicTacToeGame "game1")
             one_player_game player1); [|reflexivity].
    apply reachable_new. }
  destruct (reachable_games FULL ALREADY NOT_IN two_player_game Hr)
    as (Hm & _ & Hlen & _).
  split; [exact Hr|]. split; [exact Hm | exact Hlen].
Defined.

(** The move accepted on the game two players have joined is a move of
    the X player and changes nothing. *)
Lemma reachable_moves_change_nothing_witness :
  applyMove two_player_game (moveOf player1 X 1 1) = Normal two_player_game
  /\ Some (GameMove.playerID (moveOf player1 X 1 1))
     = TicTacToeGameState.x (Game.state two_player_game).
Proof.
  split; [reflexivity|].
  apply (reachable_moves_change_nothing FULL ALREADY NOT_IN two_player_game
           two_player_game (moveOf player1 X 1 1)); [|reflexivity].
  apply (reachable_join FULL ALREADY NOT_IN one_player_game two_player_game
           player2); [|reflexivity].
  apply (reachable_join FULL ALREADY NOT_IN (new_TicTacToeGame "game1")
           one_player_game player1); [|reflexivity].
  apply reachable_new.
Defined.

(** A move of the O player before any move of X throws and leaves the
    area as it was. *)
Lemma handleCommand_throw_leaves_area_witness :
  fst (handleCommand GNIP INVALID FULL ALREADY NOT_IN playing_area
         (GameMoveCommand "game1" (TicTacToeMove.mk O 0 0)) player2 "game2")
  = playing_area.
Proof.
  apply (handleCommand_throw_leaves_area GNIP INVALID FULL ALREADY NOT_IN).
  reflexivity.
Defined.

(** A LeaveGame command of a player who has not joined throws with the
    not-in-game constant. *)
Lemma handleCommand_messages_witness :
  snd (handleCommand GNIP INVALID FULL ALREADY NOT_IN playing_area
         (LeaveGameCommand "game1") player3 "game2")
  = Throw (InvalidParametersError NOT_IN)
  /\ (message (InvalidParametersError NOT_IN) = GNIP
      \/ message (InvalidParametersError NOT_IN) = NOT_IN).
Proof.
  split; [reflexivity|].
  apply (handleCommand_messages GNIP INVALID FULL ALREADY NOT_IN playing_area
           (LeaveGameCommand "game1") player3 "game2").
  reflexivity.
Defined.

(** The first JoinGame command in an area without a game. *)
Lemma handleCommand_join_result_witness :
  exists g1,
    Area._game
      (fst (handleCommand GNIP INVALID FULL ALREADY NOT_IN empty_area
              JoinGameCommand player1 "game1")) = Some g1
    /\ ReturnGameID "game1" = ReturnGameID (Game.id g1).
Proof.
  destruct (handleCommand_join_result GNIP INVALID FULL ALREADY NOT_IN
              empty_area player1 "game1" (ReturnGameID "game1") eq_refl)
    as (g1 & Hg & Hr & _).
  exists g1. split; [exact Hg | exact Hr].
Defined.

(** The first joiner of an area cannot leave. *)
Lemma lone_joiner_cannot_leave_witness :
  handleCommand GNIP INVALID FULL ALREADY NOT_IN
    (fst (handleCommand GNIP INVALID FULL ALREADY NOT_IN empty_area
            JoinGameCommand player1 "game1"))
    (LeaveGameCommand "game1") player1 "game2"
  = (fst (handleCommand GNIP INVALID FULL ALREADY NOT_IN empty_area
            JoinGameCommand player1 "game1"),
     Throw (InvalidParametersError GNIP)).
Proof.
  apply (lone_joiner_cannot_leave GNIP INVALID FULL ALREADY NOT_IN empty_area
           player1 "game1" "game2" "game1").
  reflexivity.
Defined.

(** After two JoinGame commands from the empty area the active game is
    in progress with an empty log. *)
Lemma handleCommands_active_game_witness :
  Area._game
    (handleCommands GNIP INVALID FULL ALREADY NOT_IN empty_area
       [(JoinGameCommand, player1, "game1");
        (JoinGameCommand, player2, "game2")])
  = Some two_player_game
  /\ TicTacToeGameState.status (Game.state two_player_game) <> OVER
  /\ TicTacToeGameState.moves (Game.state two_player_game) = [].
Proof.
  destruct (handleCommands_active_game GNIP INVALID FULL ALREADY NOT_IN
              [(JoinGameCommand, player1, "game1");
               (JoinGameCommand, player2, "game2")]
              empty_area two_player_game eq_refl eq_refl)
    as (Hs & Hm & _).
  split; [reflexivity|]. split; [exact Hs | exact Hm].
Defined.

(** After two JoinGame commands from the empty area, the move of X only
    emits a change. *)
Lemma handleCommands_move_changes_nothing_witness :
  let a' :=
    handleCommands GNIP INVALID FULL ALREADY NOT_IN empty_area
      [(JoinGameCommand, player1, "game1");
       (JoinGameCommand, player2, "game2")] in
  fst (handleCommand GNIP INVALID FULL ALREADY NOT_IN a'
         (GameMoveCommand "game1" (TicTacToeMove.mk X 0 0)) player1 "game3")
  = _emitAreaChanged a'.
Proof.
  apply (handleCommands_move_changes_nothing GNIP INVALID FULL ALREADY NOT_IN
           [(JoinGameCommand, player1, "game1");
            (JoinGameCommand, player2, "game2")]
           empty_area "game1" "game3" (TicTacToeMove.mk X 0 0) player1);
    reflexivity.
Defined.

(** The move of the O player before any move of X is out of turn. *)
Lemma applyMove_throws_witness :
  applyMove two_player_game (moveOf player2 O 0 0)
  = Throw (InvalidParametersError "MOVE_NOT_YOUR_TURN_MESSAGE")
  /\ TicTacToeGameState.status (Game.state two_player_game) = IN_PROGRESS.
Proof.
  destruct (applyMove_throws two_player_game (moveOf player2 O 0 0)
              (InvalidParametersError "MOVE_NOT_YOUR_TURN_MESSAGE") eq_refl)
    as [(Hs & _) | [(Hs & _) | (Hs & _)]].
  - exfalso. apply Hs. reflexivity.
  - split; [reflexivity | exact Hs].
  - split; [reflexivity | exact Hs].
Defined.

(** The move of X in the area hosting the game two players joined. *)
Lemma handleCommand_move_leave_result_witness :
  snd (handleCommand GNIP INVALID FULL ALREADY NOT_IN playing_area
         (GameMoveCommand "game1" (TicTacToeMove.mk X 0 0)) player1 "game2")
  = Normal ReturnEmpty
  /\ Area.emitted
       (fst (handleCommand GNIP INVALID FULL ALREADY NOT_IN playing_area
               (GameMoveCommand "game1" (TicTacToeMove.mk X 0 0)) player1
               "game2"))
     = S (Area.emitted playing_area).
Proof.
  destruct (handleCommand_move_leave_result GNIP INVALID FULL ALREADY NOT_IN
              playing_area (GameMoveCommand "game1" (TicTacToeMove.mk X 0 0))
              player1 "game2" ReturnEmpty)
    as (_ & He & _); [discriminate | reflexivity |].
  split; [reflexivity | exact He].
Defined.

(** After two JoinGame commands from the empty area, the LeaveGame
    command of the second player ends the game. *)
Lemma leave_command_ends_game_witness :
  let a' :=
    handleCommands GNIP INVALID FULL ALREADY NOT_IN empty_area
      [(JoinGameCommand, player1, "game1");
       (JoinGameCommand, player2, "game2")] in
  handleCommand GNIP INVALID FULL ALREADY NOT_IN a'
    (LeaveGameCommand "game1") player2 "game3"
  = (Area.mk None [GameResult.mk "game1" [("Player Two", 0%Z)]] 2,
     Normal ReturnEmpty).
Proof.
  apply (leave_command_ends_game GNIP INVALID FULL ALREADY NOT_IN
           [(JoinGameCommand, player1, "game1");
            (JoinGameCommand, player2, "game2")]
           empty_area two_player_game player2 "game1" "game3");
    reflexivity.
Defined.
